(** * Loris-Crawler: a shallow embedding of [loris-crawler.py]

    The script mirrors the image records of a LORIS API into a DataLad
    dataset.  This development embeds the parts of the script that decide
    where a record goes and whether it is registered:

    - the path helpers of [pathlib] the script relies on (section 6 of the
      script and the [target] computation of the ingest loop);
    - [csv.DictReader] over the records of the manifest file (section 4);
    - the project enumeration (section 5), the manifest writer (section 7),
      the ingest loop (section 8) and the final save (section 9), as
      computations in a state-and-exception monad.

    Sections 0 to 3 of the script (command line, login, creation and
    configuration of the dataset) are embedded on their own, in [Setup],
    with calls and exceptions of their own; for the run their results are
    the fields of [world].  The [print] calls are left out.

    Modelling conventions.
    - Python [str] is [string]; [str.lower] is modelled on ASCII letters.
    - A Python value that is either a [str] or [None] is [option string].
    - The manifest file is the list of the records written to it:
      [writer.writerow] adds one record, and the text of the file is what
      [csv.writer] writes for these records.  The script writes the file
      with [newline=""] and reads it with the default universal newlines,
      so a carriage return inside a field is read back as a line feed:
      the reader sees the records through [Csv.read_text].
    - The JSON image records carry string fields.
    - The manifest is written through a buffered file object, and the
      script never calls [flush].  [f_out] holds the records written to
      the file object since it was opened and [manifest] the records the
      file held before; when [f_out] is closed the file holds both.
      Between the opening and the close the file on disk holds
      [manifest] followed by a beginning of [f_out]: nothing of it as
      long as [written_bytes] is below [chunk_size], what the file object
      keeps before it passes anything on; how much of it afterwards is
      left open.
    - A run can be killed before any of its actions: the state carries the
      number of actions left, so that properties of every point of a run
      are properties of the final state for every such number. *)

From stdpp Require Import base decidable option list strings gmap sorting.
From Stdlib Require Import Ascii String.

#[local] Set Warnings "-clear-no-such-hyp".

Local Open Scope string_scope.

(** ** Strings *)

Module Str.

(** [str.lower] on one ASCII character. *)
Definition lower_ascii (c : ascii) : ascii :=
  let n := nat_of_ascii c in
  if (65 <=? n)%nat && (n <=? 90)%nat then ascii_of_nat (n + 32) else c.

(** [s.lower()] *)
Fixpoint lower (s : string) : string :=
  match s with
  | EmptyString => EmptyString
  | String c r => String (lower_ascii c) (lower r)
  end.

(** [s.startswith(p)] *)
Definition startswith (s p : string) : bool := String.prefix p s.

(** [s.split(sep)] for a one-character separator. *)
Fixpoint split (sep : ascii) (s : string) : list string :=
  match s with
  | EmptyString => [EmptyString]
  | String c r =>
      if Ascii.eqb c sep then EmptyString :: split sep r
      else match split sep r with
           | [] => [String c EmptyString]
           | w :: ws => String c w :: ws
           end
  end.

(** [s.lstrip(sep)] for a one-character [sep]. *)
Fixpoint lstrip (sep : ascii) (s : string) : string :=
  match s with
  | EmptyString => EmptyString
  | String c r => if Ascii.eqb c sep then lstrip sep r else s
  end.

(** [sep.join(l)] *)
Fixpoint join (sep : string) (l : list string) : string :=
  match l with
  | [] => EmptyString
  | [x] => x
  | x :: r => x +:+ sep +:+ join sep r
  end.

(** [c in s] for a character [c]. *)
Fixpoint contains (c : ascii) (s : string) : bool :=
  match s with
  | EmptyString => false
  | String d r => Ascii.eqb d c || contains c r
  end.

End Str.

(** ** pathlib.PurePosixPath

    A path is its root ([""], ["/"] or ["//"]) and its components. *)

Module Pathlib.

Record PurePath := { root : string; parts : list string }.

Definition sep : ascii := "/"%char.

(** [_PosixFlavour.splitroot]: the root of a segment and the rest. *)
Definition splitroot (part : string) : string * string :=
  match part with
  | String c _ =>
      if Ascii.eqb c sep then
        let stripped := Str.lstrip sep part in
        if (String.length part - String.length stripped =? 2)%nat
        then ("//", stripped) else ("/", stripped)
      else ("", part)
  | EmptyString => ("", part)
  end.

(** A component is kept unless it is empty or a single dot. *)
Definition kept (x : string) : bool :=
  negb (String.eqb x "") && negb (String.eqb x ".").

(** [Path(s)] *)
Definition Path (s : string) : PurePath :=
  let '(rt, rel) := splitroot s in
  {| root := rt; parts := List.filter kept (Str.split sep rel) |}.

(** [p / q] for a path [q]: an absolute right operand replaces [p]. *)
Definition joinpath (p q : PurePath) : PurePath :=
  if String.eqb (root q) "" then
    {| root := root p; parts := parts p ++ parts q |}
  else q.

(** [p / s] for a string [s]. *)
Definition div (p : PurePath) (s : string) : PurePath := joinpath p (Path s).

(** [str(p)] *)
Definition str (p : PurePath) : string :=
  let s := root p +:+ Str.join "/" (parts p) in
  if String.eqb s "" then "." else s.

(** [p.name] *)
Definition name (p : PurePath) : string := List.last (parts p) "".

(** [p.parent] *)
Definition parent (p : PurePath) : PurePath :=
  {| root := root p; parts := List.removelast (parts p) |}.

End Pathlib.

Import Pathlib.

Notation "p // s" := (Pathlib.div p s) (at level 40, left associativity).

(** ** Section 6 of the script: the BIDS path *)

(** An image record of the API: [img['Candidate']], [img['Visit']],
    [img['ScanType']], [img['Link']]. *)
Record image := {
  Candidate : string;
  Visit : string;
  ScanType : string;
  Link : string
}.

(** The [if]/[elif] chain of [bids_path] on the lower-cased scan type:
    the pair [(modality, suffix)]. *)
Definition modality_suffix (scan : string) : string * string :=
  if Str.startswith scan "t1" then ("anat", "T1w")
  else if Str.startswith scan "t2" then ("anat", "T2w")
  else if Str.startswith scan "fieldmap" then ("fmap", "epi")
  else if Str.startswith scan "dwi" then ("dwi", "dwi")
  else ("misc", scan).

(** The name of the file, [f"{subj}_{ses}_{suffix}.mnc"]. *)
Definition bids_name (subj ses suffix : string) : string :=
  subj +:+ "_" +:+ ses +:+ "_" +:+ suffix +:+ ".mnc".

Definition bids_path (img : image) : PurePath * string :=
  let subj := "sub-" +:+ Candidate img in
  let ses := "ses-" +:+ Visit img in
  let scan := Str.lower (ScanType img) in
  let '(modality, suffix) := modality_suffix scan in
  let bids_dir := Path subj // ses // modality in
  (bids_dir // bids_name subj ses suffix, modality).

(** [target = Path("data") / project / rel_target] of the ingest loop. *)
Definition target_of (project : string) (img : image) : PurePath :=
  joinpath (Path "data" // project) (fst (bids_path img)).

(** ** Section 4 of the script: [csv.DictReader] *)

Module Csv.

(** [dict(pairs)]: a later pair overrides an earlier one with its key. *)
Definition py_dict {V} (d : gmap string V) (pairs : list (string * V)) :
    gmap string V :=
  foldl (λ d kv, <[kv.1 := kv.2]> d) d pairs.

(** One dictionary of [DictReader.__next__]: the fields zipped with the
    field names; the field names a short row does not reach are set to
    [restval], which is [None].  (The surplus of a long row goes under
    the key [None], which no string key reads.) *)
Definition dict_row (fieldnames row : list string) :
    gmap string (option string) :=
  let d := py_dict ∅ (zip fieldnames (Some <$> row)) in
  let lf := List.length fieldnames in
  let lr := List.length row in
  if (lf <? lr)%nat then d
  else foldl (λ d key, <[key := None]> d) d (drop lr fieldnames).

Definition nonblank (row : list string) : bool :=
  match row with [] => false | _ => true end.

(** The text layer of reading.  The script opens the manifest for
    reading with the default [newline=None]: every ["\r\n"] and every
    other ["\r"] of the file comes to the reader as ["\n"].  It writes
    the file with [newline=""]: a carriage return inside a field is
    written as it is, the writer puts such a field in quotes.  So a field
    is read back with its line ends translated. *)
Fixpoint universal_newlines (s : string) : string :=
  match s with
  | EmptyString => EmptyString
  | String c r =>
      if Ascii.eqb c "013" then
        match r with
        | String d r' =>
            if Ascii.eqb d "010" then String "010" (universal_newlines r')
            else String "010" (universal_newlines r)
        | EmptyString => String "010" EmptyString
        end
      else String c (universal_newlines r)
  end.

(** The records of a file as [csv.reader] gets them from the file opened
    for reading. *)
Definition read_text (recs : list (list string)) : list (list string) :=
  (λ row : list string, universal_newlines <$> row) <$> recs.

(** The dictionaries [DictReader] yields for a file: the first record
    gives the field names, empty records after it are skipped. *)
Definition DictReader (recs : list (list string)) :
    list (gmap string (option string)) :=
  match recs with
  | [] => []
  | fieldnames :: rest => dict_row fieldnames <$> List.filter nonblank rest
  end.

(** The bytes [csv.writer] writes for a field: a field with a comma, a
    quote or a line end is put in quotes, with its quotes doubled. *)
Definition special (c : ascii) : bool :=
  Ascii.eqb c "," || Ascii.eqb c "034" || Ascii.eqb c "013"
  || Ascii.eqb c "010".

Fixpoint count (f : ascii → bool) (s : string) : nat :=
  match s with
  | EmptyString => O
  | String c r => (if f c then 1 else 0) + count f r
  end.

Definition field_bytes (field : string) : nat :=
  if (0 <? count special field)%nat
  then String.length field + count (Ascii.eqb "034") field + 2
  else String.length field.

(** The bytes of a record: its fields, the commas between them and the
    line end ["\r\n"]; a record of one empty field is written as two
    quotes. *)
Definition record_bytes (row : list string) : nat :=
  match row with
  | [EmptyString] => 4
  | _ => foldr (λ field n, field_bytes field + n) O row
         + Nat.pred (List.length row) + 2
  end.

End Csv.

(** ** The run: state, exceptions, outside world *)

(** The dictionary given to [writer.writerow] in the ingest loop. *)
Record manifest_row := {
  row_project : string;
  row_candidate : string;
  row_visit : string;
  row_filename : string;
  row_modality : string;
  row_target_path : string;
  row_url : string
}.

(** [fieldnames] of the [csv.DictWriter]. *)
Definition fieldnames : list string :=
  ["project"; "candidate"; "visit"; "filename"; "modality"; "target_path";
   "url"].

(** [DictWriter._dict_to_list]: the values in the order of [fieldnames]. *)
Definition dict_to_list (r : manifest_row) : list string :=
  [row_project r; row_candidate r; row_visit r; row_filename r;
   row_modality r; row_target_path r; row_url r].

(** What the script does to the outside, in the order it does it. *)
Inductive event :=
| HttpGet (url : string)           (* requests.get(url, headers=HEADERS) *)
| Mkdir (path : string)            (* Path.mkdir(parents=True, exist_ok=True) *)
| OpenAppend                       (* MANIFEST_OUT.open("a", newline="") *)
| WriteHeader                      (* writer.writeheader() *)
| AnnexAddurl (url file : string)  (* git annex addurl url --file file --fast --relaxed *)
| WriteRow (r : manifest_row)      (* writer.writerow({...}) *)
| DataladGet (file : string)       (* datalad get file *)
| Close                            (* f_out.close() *)
| DataladSave.                     (* datalad save -m ... *)

Inductive exn :=
| KeyError (key : string)
| RuntimeError (msg : string)
| HTTPError (url : string)
| OSError (path : string)
| CalledProcessError (cmd : event)
| Interrupted.                     (* the process is killed *)

#[global] Instance manifest_row_eq_dec : EqDecision manifest_row.
Proof. solve_decision. Defined.
#[global] Instance event_eq_dec : EqDecision event.
Proof. solve_decision. Defined.
#[global] Instance exn_eq_dec : EqDecision exn.
Proof. solve_decision. Defined.

(** The answer to a [requests.get]: [raise_for_status] raises on
    [HttpFail], [.json()] is the body otherwise. *)
Inductive response (A : Type) :=
| HttpFail
| HttpJson (body : A).
Arguments HttpFail {A}.
Arguments HttpJson {A} body.

(** The two JSON bodies; [None] is a body without the key.  The values of
    the ["Projects"] object are never read. *)
Record projects_json := { Projects : option (gmap string unit) }.
Record images_json := { Images : option (list image) }.

(** The outside world of one run: the command line, the API and the
    outcome of each command given the calls made before it. *)
Record world := {
  DATASET_DIR : PurePath;
  API_BASE : string;
  args_get : bool;
  get_projects : response projects_json;
  get_images : string → response images_json;
  command_ok : list event → event → bool
}.

(** The state of a run.  The manifest file is the list of its records
    ([None]: no such file) as it was when [f_out] was opened; [f_out]
    holds what was written to the file object since: the script never
    flushes, and all of it is in the file once [f_out] is closed.
    [kill_after] counts the actions the process may still perform before
    it is killed ([None]: it is not killed). *)
Record state := {
  existing_files : gset (option string);
  manifest : option (list (list string));
  f_out : list (list string);
  trace : list event;
  kill_after : option nat
}.

Inductive result (A : Type) :=
| Ok (a : A)
| Raise (e : exn).
Arguments Ok {A} a.
Arguments Raise {A} e.

Definition M (A : Type) : Type := state → result A * state.

Definition ret {A} (a : A) : M A := λ s, (Ok a, s).

Definition bind {A B} (m : M A) (f : A → M B) : M B :=
  λ s, match m s with
       | (Ok a, s') => f a s'
       | (Raise e, s') => (Raise e, s')
       end.

Definition raise {A} (e : exn) : M A := λ s, (Raise e, s).

Definition get_state : M state := λ s, (Ok s, s).

Declare Scope run_scope.
Delimit Scope run_scope with run.
Notation "x <- m ;; k" := (bind m (λ x, k))
  (at level 100, m at next level, k at level 200, right associativity) :
  run_scope.
Notation "m ;; k" := (bind m (λ _, k))
  (at level 100, k at level 200, right associativity) : run_scope.
Local Open Scope run_scope.

(** [for x in l: body(x)] *)
Fixpoint for_each {A} (l : list A) (body : A → M unit) : M unit :=
  match l with
  | [] => ret tt
  | x :: l' => body x ;; for_each l' body
  end.

(** Field updates of the state. *)
Definition set_existing_files (X : gset (option string)) (s : state) : state :=
  {| existing_files := X; manifest := manifest s; f_out := f_out s;
     trace := trace s; kill_after := kill_after s |}.
Definition set_manifest (file : option (list (list string))) (s : state) :
    state :=
  {| existing_files := existing_files s; manifest := file; f_out := f_out s;
     trace := trace s; kill_after := kill_after s |}.
Definition set_f_out (recs : list (list string)) (s : state) : state :=
  {| existing_files := existing_files s; manifest := manifest s;
     f_out := recs; trace := trace s; kill_after := kill_after s |}.
Definition set_trace (tr : list event) (s : state) : state :=
  {| existing_files := existing_files s; manifest := manifest s;
     f_out := f_out s; trace := tr; kill_after := kill_after s |}.
Definition set_kill_after (k : option nat) (s : state) : state :=
  {| existing_files := existing_files s; manifest := manifest s;
     f_out := f_out s; trace := trace s; kill_after := k |}.

(** Every action starts here: a killed process does nothing more. *)
Definition tick : M unit :=
  λ s, match kill_after s with
       | None => (Ok tt, s)
       | Some O => (Raise Interrupted, s)
       | Some (S n) => (Ok tt, set_kill_after (Some n) s)
       end.

Definition log (ev : event) : M unit :=
  λ s, (Ok tt, set_trace (trace s ++ [ev]) s).

(** [existing_files.add(v)] *)
Definition existing_files_add (v : option string) : M unit :=
  tick ;;
  λ s, (Ok tt, set_existing_files ({[v]} ∪ existing_files s) s).

(** A write to [f_out]: the record goes to the file object. *)
Definition f_out_write (rec : list string) : M unit :=
  λ s, (Ok tt, set_f_out (f_out s ++ [rec]) s).

(** Opening in append mode creates the file when there is none. *)
Definition open_append : M unit :=
  tick ;; log OpenAppend ;;
  λ s, (Ok tt, set_manifest (Some (default [] (manifest s))) s).

(** [f_out.close()]: everything written is in the file. *)
Definition close : M unit :=
  tick ;; log Close ;;
  λ s, (Ok tt, set_f_out []
                 (set_manifest
                    (Some (default [] (manifest s) ++ f_out s)%list) s)).

Definition writeheader : M unit :=
  tick ;; log WriteHeader ;; f_out_write fieldnames.

Definition writerow (r : manifest_row) : M unit :=
  tick ;; log (WriteRow r) ;; f_out_write (dict_to_list r).

Section Script.

Variable w : world.

(** [requests.get(url, headers=HEADERS)], [raise_for_status()],
    [.json()] *)
Definition http_get {A} (url : string) (reply : response A) : M A :=
  tick ;; log (HttpGet url) ;;
  match reply with
  | HttpFail => raise (HTTPError url)
  | HttpJson body => ret body
  end.

(** [Path.mkdir(parents=True, exist_ok=True)] *)
Definition mkdir (p : PurePath) : M unit :=
  tick ;;
  s <- get_state ;;
  log (Mkdir (str p)) ;;
  if command_ok w (trace s) (Mkdir (str p)) then ret tt
  else raise (OSError (str p)).

(** [subprocess.run(cmd, check=True)] *)
Definition subprocess_run (cmd : event) : M unit :=
  tick ;;
  s <- get_state ;;
  log cmd ;;
  if command_ok w (trace s) cmd then ret tt
  else raise (CalledProcessError cmd).

(** [row["target_path"]] *)
Definition getitem (row : gmap string (option string)) (key : string) :
    M (option string) :=
  match row !! key with
  | Some v => ret v
  | None => raise (KeyError key)
  end.

(** [existing_files.add(row["target_path"])] *)
Definition add_target_path (row : gmap string (option string)) : M unit :=
  v <- getitem row "target_path" ;; existing_files_add v.

(** Section 4: the paths of the manifest go into [existing_files]. *)
Definition load_manifest : M unit :=
  s <- get_state ;;
  match manifest s with
  | None => ret tt
  | Some recs =>
      for_each (Csv.DictReader (Csv.read_text recs)) add_target_path
  end.

(** [sorted(projects.keys())] *)
Definition sorted_keys (projects : gmap string unit) : list string :=
  merge_sort String.le (elements (dom projects)).

(** Section 5: the project list. *)
Definition fetch_projects : M (list string) :=
  body <- http_get (API_BASE w +:+ "/projects") (get_projects w) ;;
  let projects := default ∅ (Projects body) in
  if decide (projects = ∅)
  then raise (RuntimeError "No projects returned by API")
  else ret (sorted_keys projects).

(** Section 7: the manifest writer. *)
Definition open_writer : M unit :=
  s <- get_state ;;
  let write_header := negb (bool_decide (is_Some (manifest s))) in
  mkdir (DATASET_DIR w) ;;
  open_append ;;
  if write_header then writeheader else ret tt.

(** Section 8: the body of [for img in images]. *)
Definition process_image (project : string) (img : image) : M unit :=
  let url := API_BASE w +:+ Link img in
  let '(rel_target, modality) := bids_path img in
  let target := joinpath (Path "data" // project) rel_target in
  s <- get_state ;;
  if bool_decide (Some (str target) ∈ existing_files s) then ret tt
  else
    mkdir (joinpath (DATASET_DIR w) (parent target)) ;;
    subprocess_run (AnnexAddurl url (str target)) ;;
    writerow {| row_project := project;
                row_candidate := Candidate img;
                row_visit := Visit img;
                row_filename := name target;
                row_modality := modality;
                row_target_path := str target;
                row_url := url |} ;;
    existing_files_add (Some (str target)) ;;
    if args_get w then subprocess_run (DataladGet (str target))
    else ret tt.

(** [f"{API_BASE}/projects/{project}/images"] *)
Definition images_url (project : string) : string :=
  API_BASE w +:+ "/projects/" +:+ project +:+ "/images".

(** Section 8: the body of [for project in project_names]. *)
Definition process_project (project : string) : M unit :=
  let url := images_url project in
  body <- http_get url (get_images w url) ;;
  let images := default [] (Images body) in
  for_each images (process_image project).

(** Sections 5 to 9. *)
Definition ingest : M unit :=
  project_names <- fetch_projects ;;
  open_writer ;;
  for_each project_names process_project ;;
  close ;;
  subprocess_run DataladSave.

(** Sections 4 to 9. *)
Definition main : M unit := load_manifest ;; ingest.

End Script.

(** The state a run starts in: [existing_files = set()]. *)
Definition start (file : option (list (list string))) (kill : option nat) :
    state :=
  {| existing_files := ∅; manifest := file; f_out := []; trace := [];
     kill_after := kill |}.

(** The state once an action has started: one action less is left. *)
Definition ticked (s : state) : state :=
  set_kill_after (Nat.pred <$> kill_after s) s.

(** The state once a call has started and is in the trace. *)
Definition called (ev : event) (s : state) : state :=
  set_trace (trace s ++ [ev]) (ticked s).

(** ** The ledger of a run, read off its trace *)

(** The rows given to [writer.writerow]. *)
Definition appended (tr : list event) : list manifest_row :=
  omap (λ ev, match ev with WriteRow r => Some r | _ => None end) tr.

(** The registrations asked of the backend: URL and destination path. *)
Definition registered (tr : list event) : list (string * string) :=
  omap (λ ev, match ev with AnnexAddurl u f => Some (u, f) | _ => None end) tr.

(** The records written to [f_out]. *)
Definition writes (tr : list event) : list (list string) :=
  omap (λ ev, match ev with
              | WriteHeader => Some fieldnames
              | WriteRow r => Some (dict_to_list r)
              | _ => None
              end) tr.

(** The destination paths of rows, as members of the dedup set. *)
Definition paths_of (rows : list manifest_row) : list (option string) :=
  (λ r, Some (row_target_path r)) <$> rows.

(** The registration a row stands for. *)
Definition registration_of (r : manifest_row) : string * string :=
  (row_url r, row_target_path r).

(** The row the ingest loop writes for a record. *)
Definition row_of (w : world) (project : string) (img : image) : manifest_row :=
  {| row_project := project;
     row_candidate := Candidate img;
     row_visit := Visit img;
     row_filename := name (target_of project img);
     row_modality := (bids_path img).2;
     row_target_path := str (target_of project img);
     row_url := API_BASE w +:+ Link img |}.

(** The calls of the ingest loop for a record. *)
Definition mkdir_of (w : world) (project : string) (img : image) : event :=
  Mkdir (str (joinpath (DATASET_DIR w) (parent (target_of project img)))).
Definition addurl_of (w : world) (project : string) (img : image) : event :=
  AnnexAddurl (API_BASE w +:+ Link img) (str (target_of project img)).
Definition get_of (project : string) (img : image) : event :=
  DataladGet (str (target_of project img)).

(** The records of a project as the API gives them. *)
Definition images_of (w : world) (project : string) : list image :=
  match get_images w (images_url w project) with
  | HttpJson body => default [] (Images body)
  | HttpFail => []
  end.

(** What the manifest holds once everything written has reached it. *)
Definition file_view (s : state) : list (list string) :=
  (default [] (manifest s) ++ f_out s)%list.

(** The text file object passes what is written to it on to the file
    once this many bytes are pending, the chunk size of [TextIOWrapper],
    and at a [flush] or the [close]. *)
Definition chunk_size : nat := (8 * 1024)%nat.

(** The bytes written to the file object since it was opened. *)
Definition written_bytes (s : state) : nat :=
  foldr (λ row n, Csv.record_bytes row + n) O (f_out s).

(** [s'] is [s] with dedup set [X], file [F], file object [B] and the
    calls [evs] added to the trace. *)
Definition effect (X : gset (option string)) (F : option (list (list string)))
    (B : list (list string)) (evs : list event) (s s' : state) : Prop :=
  existing_files s' = X ∧ manifest s' = F ∧ f_out s' = B ∧
  trace s' = (trace s ++ evs)%list.

(** The ways the processing of one record can go, from state [s] to a
    result and a state. *)
Inductive image_step (w : world) (project : string) (img : image)
    (s : state) : result unit → state → Prop :=
| step_skip :
    Some (str (target_of project img)) ∈ existing_files s →
    image_step w project img s (Ok tt) s
| step_killed_early s' evs :
    Some (str (target_of project img)) ∉ existing_files s →
    evs ∈ [[]; [mkdir_of w project img];
           [mkdir_of w project img; addurl_of w project img]] →
    effect (existing_files s) (manifest s) (f_out s) evs s s' →
    image_step w project img s (Raise Interrupted) s'
| step_mkdir_failed s' p :
    Some (str (target_of project img)) ∉ existing_files s →
    effect (existing_files s) (manifest s) (f_out s)
      [mkdir_of w project img] s s' →
    image_step w project img s (Raise (OSError p)) s'
| step_addurl_failed s' :
    Some (str (target_of project img)) ∉ existing_files s →
    command_ok w (trace s ++ [mkdir_of w project img])
      (addurl_of w project img) = false →
    effect (existing_files s) (manifest s) (f_out s)
      [mkdir_of w project img; addurl_of w project img] s s' →
    image_step w project img s
      (Raise (CalledProcessError (addurl_of w project img))) s'
| step_killed_before_add s' :
    Some (str (target_of project img)) ∉ existing_files s →
    command_ok w (trace s ++ [mkdir_of w project img])
      (addurl_of w project img) = true →
    effect (existing_files s) (manifest s)
      (f_out s ++ [dict_to_list (row_of w project img)])
      [mkdir_of w project img; addurl_of w project img;
       WriteRow (row_of w project img)] s s' →
    image_step w project img s (Raise Interrupted) s'
| step_registered s' r evs :
    Some (str (target_of project img)) ∉ existing_files s →
    command_ok w (trace s ++ [mkdir_of w project img])
      (addurl_of w project img) = true →
    (evs = [] ∧ (r = Ok tt ∧ args_get w = false ∨
                 r = Raise Interrupted ∧ args_get w = true) ∨
     evs = [get_of project img] ∧ args_get w = true ∧
       (r = Ok tt ∨ r = Raise (CalledProcessError (get_of project img)))) →
    effect ({[Some (str (target_of project img))]} ∪ existing_files s)
      (manifest s) (f_out s ++ [dict_to_list (row_of w project img)])
      ([mkdir_of w project img; addurl_of w project img;
        WriteRow (row_of w project img)] ++ evs) s s' →
    image_step w project img s r s'.

(** ** The books of a run and their invariants *)

(** What the invariants of a run speak about: the dedup set, the manifest
    file, the file object, and the rows, registrations and writes of the
    trace. *)
Record books := {
  bk_set : gset (option string);
  bk_file : option (list (list string));
  bk_out : list (list string);
  bk_rows : list manifest_row;
  bk_regs : list (string * string);
  bk_writes : list (list string)
}.

Definition books_of (s : state) : books :=
  {| bk_set := existing_files s; bk_file := manifest s; bk_out := f_out s;
     bk_rows := appended (trace s); bk_regs := registered (trace s);
     bk_writes := writes (trace s) |}.

(** The header a run writes: one when there was no file. *)
Definition header_for (file : option (list (list string))) :
    list (list string) :=
  match file with None => [fieldnames] | Some _ => [] end.

(** The books after the file is opened, after a record is written to the
    file object, after a row is written, after a registration is asked,
    after a path is added to the dedup set, after the file is closed. *)
Definition opened (b : books) : books :=
  {| bk_set := bk_set b; bk_file := Some (default [] (bk_file b));
     bk_out := bk_out b; bk_rows := bk_rows b; bk_regs := bk_regs b;
     bk_writes := bk_writes b |}.
Definition header_written (b : books) : books :=
  {| bk_set := bk_set b; bk_file := bk_file b;
     bk_out := bk_out b ++ [fieldnames]; bk_rows := bk_rows b;
     bk_regs := bk_regs b; bk_writes := bk_writes b ++ [fieldnames] |}.
Definition row_written (r : manifest_row) (b : books) : books :=
  {| bk_set := bk_set b; bk_file := bk_file b;
     bk_out := bk_out b ++ [dict_to_list r]; bk_rows := bk_rows b ++ [r];
     bk_regs := bk_regs b; bk_writes := bk_writes b ++ [dict_to_list r] |}.
Definition registration_asked (a : string * string) (b : books) : books :=
  {| bk_set := bk_set b; bk_file := bk_file b; bk_out := bk_out b;
     bk_rows := bk_rows b; bk_regs := bk_regs b ++ [a];
     bk_writes := bk_writes b |}.
Definition path_added (v : option string) (b : books) : books :=
  {| bk_set := {[v]} ∪ bk_set b; bk_file := bk_file b; bk_out := bk_out b;
     bk_rows := bk_rows b; bk_regs := bk_regs b; bk_writes := bk_writes b |}.
Definition flushed (b : books) : books :=
  {| bk_set := bk_set b;
     bk_file := Some (default [] (bk_file b) ++ bk_out b)%list;
     bk_out := []; bk_rows := bk_rows b; bk_regs := bk_regs b;
     bk_writes := bk_writes b |}.

(** A call that is neither a write to the manifest nor a registration. *)
Definition quiet (ev : event) : bool :=
  match ev with
  | WriteHeader | WriteRow _ | AnnexAddurl _ _ => false
  | _ => true
  end.

(** Between two records: the dedup set is the loaded set [L] and the paths
    of the rows written, these paths are pairwise distinct and none was
    loaded, and the registrations are those of the rows. *)
Record settled (L : gset (option string)) (b : books) : Prop := {
  st_set : bk_set b = L ∪ list_to_set (paths_of (bk_rows b));
  st_nodup : NoDup (paths_of (bk_rows b));
  st_fresh : ∀ k, k ∈ paths_of (bk_rows b) → k ∉ L;
  st_regs : bk_regs b = registration_of <$> bk_rows b
}.

(** At any point after the loading, for the loaded set [L] and the file
    [F0] the run found. *)
Record sound (L : gset (option string)) (F0 : option (list (list string)))
    (b : books) : Prop := {
  sd_lower : L ⊆ bk_set b;
  sd_upper : bk_set b ⊆ L ∪ list_to_set (paths_of (bk_rows b));
  sd_window :
    bk_set b = L ∪ list_to_set (paths_of (bk_rows b)) ∨
    ∃ rows r, bk_rows b = (rows ++ [r])%list ∧
              bk_set b = L ∪ list_to_set (paths_of rows);
  sd_nodup : NoDup (paths_of (bk_rows b));
  sd_fresh : ∀ k, k ∈ paths_of (bk_rows b) → k ∉ L;
  sd_regs_nodup : NoDup (bk_regs b).*2;
  sd_regs_fresh : ∀ f, f ∈ (bk_regs b).*2 → Some f ∉ L;
  sd_rows_regs : (registration_of <$> bk_rows b) `prefix_of` bk_regs b;
  sd_view :
    (default [] (bk_file b) ++ bk_out b)%list
      = (default [] F0 ++ bk_writes b)%list;
  sd_header :
    bk_writes b = [] ∧ bk_rows b = [] ∨
    bk_writes b = (header_for F0 ++ (dict_to_list <$> bk_rows b))%list
}.

(** After the loading, before the writer is opened. *)
Definition ready (L : gset (option string)) (F0 : option (list (list string)))
    (b : books) : Prop :=
  bk_set b = L ∧ bk_file b = F0 ∧ bk_out b = [] ∧ bk_rows b = [] ∧
  bk_regs b = [] ∧ bk_writes b = [].

(** In the ingest loop, between two records. *)
Definition looping (L : gset (option string))
    (F0 : option (list (list string))) (b : books) : Prop :=
  settled L b ∧ bk_file b = Some (default [] F0) ∧ bk_out b = bk_writes b ∧
  bk_writes b = (header_for F0 ++ (dict_to_list <$> bk_rows b))%list.

(** After [f_out.close()]. *)
Definition closed (L : gset (option string))
    (F0 : option (list (list string))) (b : books) : Prop :=
  settled L b ∧
  bk_file b = Some (default [] F0 ++ bk_writes b)%list ∧ bk_out b = [] ∧
  bk_writes b = (header_for F0 ++ (dict_to_list <$> bk_rows b))%list.

(** When the run stops on an exception: the books are sound, and the
    dedup set is the loaded set and the paths of the rows written unless
    the process was killed. *)
Definition stopped (L : gset (option string))
    (F0 : option (list (list string))) (e : exn) (b : books) : Prop :=
  sound L F0 b ∧
  (e ≠ Interrupted → bk_set b = L ∪ list_to_set (paths_of (bk_rows b))).

(** While the manifest is loaded: only paths of the file are in the dedup
    set and nothing else has happened. *)
Definition loading (L : gset (option string))
    (F0 : option (list (list string))) (b : books) : Prop :=
  bk_set b ⊆ L ∧ bk_file b = F0 ∧ bk_out b = [] ∧ bk_rows b = [] ∧
  bk_regs b = [] ∧ bk_writes b = [].

(** How a run ends on books: closed when it returns; when it raises,
    either during the loading (killed, or on a missing column) or
    stopped later. *)
Definition run_ends (L : gset (option string))
    (F0 : option (list (list string))) (r : result unit) (b : books) : Prop :=
  match r with
  | Ok _ => closed L F0 b
  | Raise e =>
      loading L F0 b ∧ (e = Interrupted ∨ e = KeyError "target_path") ∨
      stopped L F0 e b
  end.

(** A triple on the books: from a state whose books satisfy [P], the
    computation returns with [Q] or raises with [E]. *)
Definition triple {A} (P : books → Prop) (m : M A)
    (Q : A → books → Prop) (E : exn → books → Prop) : Prop :=
  ∀ s, P (books_of s) →
    match m s with
    | (Ok a, s') => Q a (books_of s')
    | (Raise e, s') => E e (books_of s')
    end.

(** A computation that removes nothing from the dedup set. *)
Definition monotone {A} (m : M A) : Prop :=
  ∀ s, existing_files s ⊆ existing_files (m s).2.

(** A manifest file the script itself can have written: none, or one that
    starts with the header. *)
Definition well_formed (file : option (list (list string))) : Prop :=
  file = None ∨ ∃ rest, file = Some (fieldnames :: rest).

(** ** The resolver as the specification words it *)

(** The rule table: scan-type prefix, modality, suffix. *)
Definition rules : list (string * (string * string)) :=
  [("t1", ("anat", "T1w")); ("t2", ("anat", "T2w"));
   ("fieldmap", ("fmap", "epi")); ("dwi", ("dwi", "dwi"))].

(** The rules in order, the first match wins; without a match the
    modality is [misc] and the suffix is the string that was looked up. *)
Fixpoint first_match (table : list (string * (string * string)))
    (scan : string) : string * string :=
  match table with
  | [] => ("misc", scan)
  | (prefix, res) :: rest =>
      if Str.startswith scan prefix then res else first_match rest scan
  end.

(** [bids_path img] puts the record under [modality] with [suffix]. *)
Definition resolved_as (img : image) (modality suffix : string) : Prop :=
  let subj := "sub-" +:+ Candidate img in
  let ses := "ses-" +:+ Visit img in
  bids_path img =
    (Path subj // ses // modality // bids_name subj ses suffix, modality).

(** No rule of the table matches the scan type, whatever its case. *)
Definition unmatched (scan_type : string) : Prop :=
  ∀ prefix, prefix ∈ rules.*1 →
    Str.startswith (Str.lower scan_type) prefix = false.

(** The destination path as a slash-separated list of components. *)
Definition components (l : list string) : string := Str.join "/" l.

(** ** The manifest as the specification words it *)

(** The destination paths read from a manifest file: the [target_path]
    of each row as [DictReader] gives it for the file opened for reading
    ([None] where the row is too short). *)
Definition column (recs : list (list string)) : list (option string) :=
  (λ d, default None (d !! "target_path"))
    <$> Csv.DictReader (Csv.read_text recs).

(** The paths of a file that may not exist. *)
Definition prior_paths (file : option (list (list string))) :
    list (option string) :=
  column (default [] file).

(** The row has a destination-path field. *)
Definition has_target_path (hdr row : list string) : Prop :=
  ∃ v, Csv.dict_row hdr row !! "target_path" = Some (Some v).

(** A string without carriage return: the text layer reads it back as
    it was written. *)
Definition plain (x : string) : Prop := Str.contains "013" x = false.

(** The destination paths of rows as a later run reads them. *)
Definition paths_read (rows : list manifest_row) : list (option string) :=
  (λ r, Some (Csv.universal_newlines (row_target_path r))) <$> rows.

(** The manifest file holds a row, other than the header, whose
    destination path, the sixth field, is [path]. *)
Definition holds (file : option (list (list string))) (path : string) : Prop :=
  ∃ row, row ∈ default [] file ∧ row ≠ fieldnames ∧
         row !! 5%nat = Some path.

(** ** A small remote, for the examples *)

Definition img_a : image :=
  {| Candidate := "123"; Visit := "V1"; ScanType := "t2_flair";
     Link := "/candidates/123/V1/images/a.mnc" |}.

(** Another file of the same candidate and visit: the same destination
    path as [img_a] under another URL. *)
Definition img_b : image :=
  {| Candidate := "123"; Visit := "V1"; ScanType := "T2_other";
     Link := "/candidates/123/V1/images/b.mnc" |}.

Definition img_c : image :=
  {| Candidate := "7"; Visit := "V2"; ScanType := "Localizer";
     Link := "/candidates/7/V2/images/c.mnc" |}.

Definition demo_images (url : string) : response images_json :=
  if String.eqb url "https://loris.example/api/v0.0.3/projects/loris/images"
  then HttpJson {| Images := Some [img_a; img_b; img_c] |}
  else HttpJson {| Images := Some [] |}.

(** Two projects, one of them without records; every command succeeds. *)
Definition demo : world :=
  {| DATASET_DIR := Path "/srv/dataset";
     API_BASE := "https://loris.example/api/v0.0.3";
     args_get := false;
     get_projects :=
       HttpJson {| Projects := Some {[ "loris" := tt; "pilot" := tt ]} |};
     get_images := demo_images;
     command_ok := λ _ _, true |}.

(** The same remote with answers that lack their key. *)
Definition demo_without_keys : world :=
  {| DATASET_DIR := Path "/srv/dataset";
     API_BASE := "https://loris.example/api/v0.0.3";
     args_get := false;
     get_projects := HttpJson {| Projects := None |};
     get_images := λ _, HttpJson {| Images := None |};
     command_ok := λ _ _, true |}.

(** The same remote with empty answers. *)
Definition demo_empty : world :=
  {| DATASET_DIR := Path "/srv/dataset";
     API_BASE := "https://loris.example/api/v0.0.3";
     args_get := false;
     get_projects := HttpJson {| Projects := Some ∅ |};
     get_images := λ _, HttpJson {| Images := Some [] |};
     command_ok := λ _ _, true |}.

(** ** Two runs against the same remote *)

(** The names the project loop goes through. *)
Definition project_names (w : world) : list string :=
  match get_projects w with
  | HttpJson body => sorted_keys (default ∅ (Projects body))
  | HttpFail => []
  end.

(** The destination path of every record of the projects [ps] is in the
    dedup set. *)
Definition covered (w : world) (ps : list string) (b : books) : Prop :=
  ∀ project img, project ∈ ps → img ∈ images_of w project →
    Some (str (target_of project img)) ∈ bk_set b.

(** No destination path of a record of the remote holds a carriage
    return. *)
Definition plain_remote (w : world) : Prop :=
  ∀ project img, project ∈ project_names w → img ∈ images_of w project →
    plain (str (target_of project img)).

(** The two worlds answer the API requests alike. *)
Definition same_remote (w1 w2 : world) : Prop :=
  API_BASE w1 = API_BASE w2 ∧ get_projects w1 = get_projects w2 ∧
  ∀ url, get_images w1 url = get_images w2 url.

(** A remote with one project of one record. *)
Definition demo_single : world :=
  {| DATASET_DIR := Path "/srv/dataset";
     API_BASE := "https://loris.example/api/v0.0.3";
     args_get := false;
     get_projects := HttpJson {| Projects := Some {[ "loris" := tt ]} |};
     get_images := λ _, HttpJson {| Images := Some [img_a] |};
     command_ok := λ _ _, true |}.

(** A record whose candidate identifier holds a carriage return. *)
Definition img_r : image :=
  {| Candidate := String "1" (String "013" "2"); Visit := "V1";
     ScanType := "t1_mprage"; Link := "/candidates/12/V1/images/r.mnc" |}.

(** A remote with one project, whose one record is [img_r]. *)
Definition demo_carriage_return : world :=
  {| DATASET_DIR := Path "/srv/dataset";
     API_BASE := "https://loris.example/api/v0.0.3";
     args_get := false;
     get_projects := HttpJson {| Projects := Some {[ "loris" := tt ]} |};
     get_images := λ _, HttpJson {| Images := Some [img_r] |};
     command_ok := λ _ _, true |}.

(** A remote with one project, whose images answer lacks its key. *)
Definition demo_without_images_key : world :=
  {| DATASET_DIR := Path "/srv/dataset";
     API_BASE := "https://loris.example/api/v0.0.3";
     args_get := false;
     get_projects := HttpJson {| Projects := Some {[ "loris" := tt ]} |};
     get_images := λ _, HttpJson {| Images := None |};
     command_ok := λ _ _, true |}.

(** ** Further readings of a run *)

(** The URLs requested from the API, in order. *)
Definition fetched (tr : list event) : list string :=
  omap (λ ev, match ev with HttpGet u => Some u | _ => None end) tr.

(** [f"{API_BASE}/projects"] *)
Definition projects_url (w : world) : string := API_BASE w +:+ "/projects".

(** A computation only adds calls to the trace, all of them [allowed]. *)
Definition emits {A} (allowed : event → Prop) (m : M A) : Prop :=
  ∀ s, ∃ evs, trace (m s).2 = (trace s ++ evs)%list ∧ Forall allowed evs.

(** What an exception says about the state it leaves: the last call of
    the trace is the one that failed. *)
Definition explained (w : world) (e : exn) (s : state) : Prop :=
  match e with
  | CalledProcessError cmd =>
      ∃ tr, trace s = (tr ++ [cmd])%list ∧ command_ok w tr cmd = false
  | OSError p =>
      ∃ tr, trace s = (tr ++ [Mkdir p])%list ∧
            command_ok w tr (Mkdir p) = false
  | HTTPError url =>
      (∃ tr, trace s = (tr ++ [HttpGet url])%list) ∧
      (url = projects_url w ∧ get_projects w = HttpFail ∨
       get_images w url = HttpFail)
  | RuntimeError msg =>
      msg = "No projects returned by API" ∧
      (∃ tr, trace s = (tr ++ [HttpGet (projects_url w)])%list) ∧
      ∃ body, get_projects w = HttpJson body ∧ default ∅ (Projects body) = ∅
  | KeyError key => key = "target_path"
  | Interrupted => kill_after s = Some O
  end.

(** Every exception of a computation is explained. *)
Definition fails_loud {A} (w : world) (m : M A) : Prop :=
  ∀ s, match (m s).1 with
       | Raise e => explained w e (m s).2
       | Ok _ => True
       end.

(** A computation leaves what the manifest file holds in place: the file
    is not removed and its records stay, in order, at its beginning. *)
Definition file_grows {A} (m : M A) : Prop :=
  ∀ s, default [] (manifest s) `prefix_of` default [] (manifest (m s).2) ∧
       (is_Some (manifest s) → is_Some (manifest (m s).2)).

(** The calls made before the manifest is closed: no close, no save, and
    a download only when [--get] was given. *)
Definition loop_event (w : world) (ev : event) : Prop :=
  match ev with
  | Close | DataladSave => False
  | DataladGet _ => args_get w = true
  | _ => True
  end.

(** The calls on the dataset and on the manifest file object: as
    [loop_event], and no request to the API. *)
Definition local_call (w : world) (ev : event) : Prop :=
  match ev with
  | HttpGet _ | Close | DataladSave => False
  | DataladGet _ => args_get w = true
  | _ => True
  end.

(** The demo remote with a backend that refuses the registration of
    [img_c]. *)
Definition demo_refusing : world :=
  {| DATASET_DIR := Path "/srv/dataset";
     API_BASE := "https://loris.example/api/v0.0.3";
     args_get := false;
     get_projects :=
       HttpJson {| Projects := Some {[ "loris" := tt; "pilot" := tt ]} |};
     get_images := demo_images;
     command_ok := λ _ ev,
       match ev with
       | AnnexAddurl _ f =>
           negb (String.eqb f
                   "data/loris/sub-7/ses-V2/misc/sub-7_ses-V2_localizer.mnc")
       | _ => true
       end |}.

(** The single-record remote, run with [--get], where every download
    fails. *)
Definition demo_download_fails : world :=
  {| DATASET_DIR := Path "/srv/dataset";
     API_BASE := "https://loris.example/api/v0.0.3";
     args_get := true;
     get_projects := HttpJson {| Projects := Some {[ "loris" := tt ]} |};
     get_images := λ _, HttpJson {| Images := Some [img_a] |};
     command_ok := λ _ ev,
       match ev with DataladGet _ => false | _ => true end |}.

(** ** Sections 0 to 3 of the script: command line, login, dataset

    The part of the script that runs before the manifest is loaded, with
    calls and exceptions of its own. *)

Module Setup.

(** [s.rstrip(c)] for a one-character [c]. *)
Fixpoint rstrip (c : ascii) (s : string) : string :=
  match s with
  | EmptyString => EmptyString
  | String d r =>
      match rstrip c r with
      | EmptyString =>
          if Ascii.eqb d c then EmptyString else String d EmptyString
      | r' => String d r'
      end
  end.

(** [bool(v)] for a value that is a [str] or [None]. *)
Definition truthy (v : option string) : bool :=
  match v with
  | Some (String _ _) => true
  | _ => false
  end.

Inductive call :=
| Input (prompt : string)                (* input(prompt) *)
| Getpass (prompt : string)              (* getpass.getpass(prompt) *)
| Post (url username password : string)  (* requests.post(url, json={...}) *)
| MkdirDataset (path : string)           (* DATASET_DIR.mkdir(parents=True, exist_ok=True) *)
| DataladCreate (path : string)          (* datalad create -c text2git path *)
| GitConfig (key value : string).        (* git config key value, in DATASET_DIR *)

Inductive error :=
| HTTPError (url : string)
| RuntimeError (msg : string)
| OSError (path : string)
| CalledProcessError (cmd : call).

(** What the script finds: the command line, the environment, what the
    operator types, the answer of the login request ([None]: a JSON
    without ["token"], or with [null]), whether the dataset has a
    [.datalad] directory, and the outcome of each command. *)
Record setting := {
  api_base : string;
  dataset : PurePath;
  LORIS_USERNAME : option string;
  LORIS_PASSWORD : option string;
  typed_username : string;
  typed_password : string;
  login_reply : response (option string);
  datalad_exists : bool;
  command_ok : list call → call → bool
}.

(** The values the rest of the script uses. *)
Record session := {
  API_BASE : string;
  DATASET_DIR : PurePath;
  MANIFEST_OUT : PurePath;
  TOKEN : string;
  HEADERS_Authorization : string;
  GIT_ANNEX_URL_AUTHORIZATION : string
}.

Inductive outcome (A : Type) :=
| Done (a : A)
| Failed (e : error).
Arguments Done {A} a.
Arguments Failed {A} e.

(** A computation adds its calls to those made so far. *)
Definition run (A : Type) : Type := list call → outcome A * list call.

Definition ret {A} (a : A) : run A := λ tr, (Done a, tr).

Definition raise {A} (e : error) : run A := λ tr, (Failed e, tr).

Definition bind {A B} (m : run A) (f : A → run B) : run B :=
  λ tr, match m tr with
        | (Done a, tr') => f a tr'
        | (Failed e, tr') => (Failed e, tr')
        end.

Declare Scope setup_scope.
Notation "x <- m ;; k" := (bind m (λ x, k))
  (at level 100, m at next level, k at level 200, right associativity) :
  setup_scope.
Notation "m ;; k" := (bind m (λ _, k))
  (at level 100, k at level 200, right associativity) : setup_scope.
Local Open Scope setup_scope.

(** [input(prompt)] and [getpass.getpass(prompt)]: what was typed. *)
Definition ask (c : call) (typed : string) : run string :=
  λ tr, (Done typed, (tr ++ [c])%list).

Section Script.

Variable c : setting.

(** [requests.post(url, json=...)], [raise_for_status()],
    [.json().get("token")] *)
Definition post_login (url username password : string) :
    run (option string) :=
  λ tr, (match login_reply c with
         | HttpFail => Failed (HTTPError url)
         | HttpJson token => Done token
         end, (tr ++ [Post url username password])%list).

(** [DATASET_DIR.mkdir(parents=True, exist_ok=True)] *)
Definition mkdir_dataset (path : string) : run unit :=
  λ tr, (if command_ok c tr (MkdirDataset path) then Done tt
         else Failed (OSError path), (tr ++ [MkdirDataset path])%list).

(** [subprocess.run(cmd, check=True)] *)
Definition subprocess_run (cmd : call) : run unit :=
  λ tr, (if command_ok c tr cmd then Done tt
         else Failed (CalledProcessError cmd), (tr ++ [cmd])%list).

(** Sections 0 to 3. *)
Definition setup : run session :=
  let API_BASE := rstrip "/" (api_base c) in
  let DATASET_DIR := dataset c in
  USERNAME <- (if truthy (LORIS_USERNAME c)
               then ret (default "" (LORIS_USERNAME c))
               else ask (Input "Loris username: ") (typed_username c)) ;;
  PASSWORD <- (if truthy (LORIS_PASSWORD c)
               then ret (default "" (LORIS_PASSWORD c))
               else ask (Getpass "Loris password: ") (typed_password c)) ;;
  TOKEN <- post_login (API_BASE +:+ "/login") USERNAME PASSWORD ;;
  if negb (truthy TOKEN)
  then raise (RuntimeError " Login succeeded but no token returned")
  else
    let token := default "" TOKEN in
    mkdir_dataset (str DATASET_DIR) ;;
    (if negb (datalad_exists c)
     then subprocess_run (DataladCreate (str DATASET_DIR))
     else ret tt) ;;
    subprocess_run
      (GitConfig "annex.security.allowed-http-addresses" "all") ;;
    subprocess_run
      (GitConfig "annex.http-headers" ("Authorization: Bearer " +:+ token)) ;;
    ret {| API_BASE := API_BASE;
           DATASET_DIR := DATASET_DIR;
           MANIFEST_OUT := DATASET_DIR // "images_manifest.csv";
           TOKEN := token;
           HEADERS_Authorization := "Bearer " +:+ token;
           GIT_ANNEX_URL_AUTHORIZATION := "Bearer " +:+ token |}.

End Script.

(** A call that touches the dataset directory. *)
Definition on_disk (cl : call) : bool :=
  match cl with
  | MkdirDataset _ | DataladCreate _ | GitConfig _ _ => true
  | _ => false
  end.

(** [s.endswith(c)] for a character [c]. *)
Fixpoint endswith (s : string) (c : ascii) : bool :=
  match s with
  | EmptyString => false
  | String d EmptyString => Ascii.eqb d c
  | String _ r => endswith r c
  end.

(** [c * n] *)
Fixpoint repeat (c : ascii) (n : nat) : string :=
  match n with O => EmptyString | S n => String c (repeat c n) end.

(** An operator with both variables set and a server that answers. *)
Definition example : setting :=
  {| api_base := "https://loris.example/api/v0.0.3//";
     dataset := Path "/srv/dataset";
     LORIS_USERNAME := Some "admin";
     LORIS_PASSWORD := Some "secret";
     typed_username := "";
     typed_password := "";
     login_reply := HttpJson (Some "tok123");
     datalad_exists := false;
     command_ok := λ _ _, true |}.

(** The same with an empty user variable and an answer without token. *)
Definition example_no_token : setting :=
  {| api_base := "https://loris.example/api/v0.0.3";
     dataset := Path "/srv/dataset";
     LORIS_USERNAME := Some "";
     LORIS_PASSWORD := None;
     typed_username := "admin";
     typed_password := "secret";
     login_reply := HttpJson None;
     datalad_exists := false;
     command_ok := λ _ _, true |}.

End Setup.

(** * Properties *)

(** ** The path resolver *)

Section Resolver.

Implicit Types (s : string) (img : image) (p q : PurePath).

Lemma contains_app c s1 s2 :
  Str.contains c (s1 +:+ s2) = Str.contains c s1 || Str.contains c s2.
Proof.
  induction s1 as [|d s1 IH]; [done|].
  change (String d s1 +:+ s2) with (String d (s1 +:+ s2)).
  cbn [Str.contains]. rewrite IH. by rewrite orb_assoc.
Qed.

Lemma lower_ascii_sep c :
  Ascii.eqb (Str.lower_ascii c) sep = Ascii.eqb c sep.
Proof. destruct c as [[] [] [] [] [] [] [] []]; reflexivity. Qed.

Lemma contains_lower s :
  Str.contains sep (Str.lower s) = Str.contains sep s.
Proof.
  induction s as [|c s IH]; [done|].
  cbn [Str.lower Str.contains]. by rewrite lower_ascii_sep, IH.
Qed.

Lemma split_no_sep s : Str.contains sep s = false → Str.split sep s = [s].
Proof.
  induction s as [|c s IH]; [done|].
  cbn [Str.contains Str.split]. intros [Hc Hs]%orb_false_iff.
  by rewrite Hc, (IH Hs).
Qed.

Lemma splitroot_no_sep s :
  Str.contains sep s = false → splitroot s = ("", s).
Proof.
  destruct s as [|c s]; [done|].
  cbn [Str.contains splitroot]. intros [-> _]%orb_false_iff. done.
Qed.

(** A string without a slash that is neither empty nor a dot is a path
    of one component. *)
Lemma Path_component s :
  Str.contains sep s = false → kept s = true →
  Path s = {| root := ""; parts := [s] |}.
Proof.
  intros Hs Hk. unfold Path.
  rewrite (splitroot_no_sep _ Hs), (split_no_sep _ Hs).
  cbn [List.filter]. by rewrite Hk.
Qed.

Lemma joinpath_relative p q :
  root q = "" →
  joinpath p q = {| root := root p; parts := parts p ++ parts q |}.
Proof. unfold joinpath. by intros ->. Qed.

Lemma contains_sub c : Str.contains sep c = false →
  Str.contains sep ("sub-" +:+ c) = false.
Proof. intros H. by rewrite contains_app, H. Qed.

Lemma contains_ses v : Str.contains sep v = false →
  Str.contains sep ("ses-" +:+ v) = false.
Proof. intros H. by rewrite contains_app, H. Qed.

Lemma contains_bids_name c v sfx :
  Str.contains sep c = false → Str.contains sep v = false →
  Str.contains sep sfx = false →
  Str.contains sep (bids_name ("sub-" +:+ c) ("ses-" +:+ v) sfx) = false.
Proof.
  intros Hc Hv Hs. unfold bids_name.
  by rewrite !contains_app, Hc, Hv, Hs.
Qed.

(** The modality is one of four words, the suffix has a slash only if
    the scan type has one. *)
Lemma modality_suffix_cases scan :
  ∃ m sfx, modality_suffix scan = (m, sfx) ∧
    m ∈ ["anat"; "fmap"; "dwi"; "misc"] ∧
    (Str.contains sep scan = false → Str.contains sep sfx = false).
Proof.
  unfold modality_suffix.
  repeat case_match; eexists _, _; (split; [done|]);
    (split; [set_solver|done]).
Qed.

(** The path of a record whose fields have no slash: six components. *)
Lemma target_of_parts project img m sfx :
  Str.contains sep project = false → kept project = true →
  Str.contains sep (Candidate img) = false →
  Str.contains sep (Visit img) = false →
  Str.contains sep (ScanType img) = false →
  modality_suffix (Str.lower (ScanType img)) = (m, sfx) →
  target_of project img =
    {| root := "";
       parts := ["data"; project; "sub-" +:+ Candidate img;
                 "ses-" +:+ Visit img; m;
                 bids_name ("sub-" +:+ Candidate img)
                   ("ses-" +:+ Visit img) sfx] |}.
Proof.
  intros Hp Hkp Hc Hv Hs Hms.
  destruct (modality_suffix_cases (Str.lower (ScanType img)))
    as (m' & sfx' & Hms' & Hm & Hsfx).
  rewrite Hms in Hms'. injection Hms' as <- <-.
  rewrite contains_lower in Hsfx. specialize (Hsfx Hs).
  unfold target_of, bids_path. rewrite Hms. unfold div. cbn [fst].
  rewrite (Path_component project Hp Hkp).
  rewrite (Path_component _ (contains_sub _ Hc) eq_refl).
  rewrite (Path_component _ (contains_ses _ Hv) eq_refl).
  rewrite (Path_component _ (contains_bids_name _ _ _ Hc Hv Hsfx) eq_refl).
  assert (Path m = {| root := ""; parts := [m] |}) as ->.
  { set_unfold in Hm. destruct Hm as [->|[->|[->|[->|[]]]]]; reflexivity. }
  reflexivity.
Qed.

(** C4: the [if]/[elif] chain of [bids_path] is the rule table applied in
    order with the first match winning, on the lower-cased scan type (so
    the prefix is matched whatever its case); T1_MPRAGE is anat/T1w,
    dwi_b1000 is dwi/dwi and localizer is misc/localizer. *)
Theorem resolver_first_match :
  (∀ img, let '(m, sfx) := first_match rules (Str.lower (ScanType img)) in
          resolved_as img m sfx) ∧
  (∀ c v l, resolved_as
     {| Candidate := c; Visit := v; ScanType := "T1_MPRAGE"; Link := l |}
     "anat" "T1w") ∧
  (∀ c v l, resolved_as
     {| Candidate := c; Visit := v; ScanType := "dwi_b1000"; Link := l |}
     "dwi" "dwi") ∧
  (∀ c v l, resolved_as
     {| Candidate := c; Visit := v; ScanType := "localizer"; Link := l |}
     "misc" "localizer").
Proof.
  split; [|by repeat split].
  intros img. unfold resolved_as, bids_path.
  change (first_match rules (Str.lower (ScanType img)))
    with (modality_suffix (Str.lower (ScanType img))).
  by destruct (modality_suffix _).
Qed.

(** C5, as the code has it: when no rule matches, the modality is misc
    and the suffix is the lower-cased scan type. *)
Theorem unmatched_is_misc_lower img :
  unmatched (ScanType img) →
  modality_suffix (Str.lower (ScanType img))
    = ("misc", Str.lower (ScanType img)) ∧
  resolved_as img "misc" (Str.lower (ScanType img)).
Proof.
  intros Hun.
  assert (modality_suffix (Str.lower (ScanType img))
            = ("misc", Str.lower (ScanType img))) as Hms.
  { unfold modality_suffix.
    rewrite !Hun by (unfold rules; set_solver). done. }
  split; [done|]. unfold resolved_as, bids_path. by rewrite Hms.
Qed.

Lemma unmatched_is_misc_lower_witness :
  resolved_as
    {| Candidate := "7"; Visit := "V2"; ScanType := "Localizer";
       Link := "/c.mnc" |} "misc" "localizer".
Proof.
  refine (proj2 (unmatched_is_misc_lower
    {| Candidate := "7"; Visit := "V2"; ScanType := "Localizer";
       Link := "/c.mnc" |} _)).
  intros prefix Hin. unfold rules in Hin. cbn in Hin.
  set_unfold in Hin.
  destruct Hin as [->|[->|[->|[->|[]]]]]; reflexivity.
Defined.

(** C5 as stated fails: the suffix of scan type Localizer is localizer,
    not the scan type as the record spells it. *)
Lemma suffix_is_not_literal :
  ¬ (∀ img, unmatched (ScanType img) →
            resolved_as img "misc" (ScanType img)).
Proof.
  intros H.
  specialize (H {| Candidate := "7"; Visit := "V2";
                   ScanType := "Localizer"; Link := "/c.mnc" |}).
  unfold resolved_as in H.
  assert (unmatched "Localizer") as Hun.
  { intros prefix Hin. unfold rules in Hin. cbn in Hin. set_unfold in Hin.
    destruct Hin as [->|[->|[->|[->|[]]]]]; reflexivity. }
  specialize (H Hun). vm_compute in H. discriminate H.
Qed.

(** C3, as the code has it: the destination path is the one of the
    claim under the directory [data]; for project loris, candidate 123,
    visit V1 and scan type t2_flair it is
    data/loris/sub-123/ses-V1/anat/sub-123_ses-V1_T2w.mnc.  The fields
    are taken without a slash, and the project is neither empty nor a
    dot: [pathlib] splits at slashes and drops such components. *)
Theorem destination_path project img :
  Str.contains sep project = false → kept project = true →
  Str.contains sep (Candidate img) = false →
  Str.contains sep (Visit img) = false →
  Str.contains sep (ScanType img) = false →
  let subj := "sub-" +:+ Candidate img in
  let ses := "ses-" +:+ Visit img in
  let '(modality, suffix) := modality_suffix (Str.lower (ScanType img)) in
  str (target_of project img) =
    components ["data"; project; subj; ses; modality;
                bids_name subj ses suffix].
Proof.
  intros Hp Hkp Hc Hv Hs.
  destruct (modality_suffix (Str.lower (ScanType img))) as [m sfx] eqn:Hms.
  cbv zeta.
  by rewrite (target_of_parts project img m sfx Hp Hkp Hc Hv Hs Hms).
Qed.

Lemma destination_path_witness :
  str (target_of "loris"
         {| Candidate := "123"; Visit := "V1"; ScanType := "t2_flair";
            Link := "/candidates/123/V1/images/a.mnc" |})
    = "data/loris/sub-123/ses-V1/anat/sub-123_ses-V1_T2w.mnc".
Proof.
  exact (destination_path "loris"
    {| Candidate := "123"; Visit := "V1"; ScanType := "t2_flair";
       Link := "/candidates/123/V1/images/a.mnc" |}
    eq_refl eq_refl eq_refl eq_refl eq_refl).
Defined.

(** C3 as stated fails: the path of the claim lacks the leading
    [data] directory. *)
Lemma destination_path_has_data_prefix :
  ¬ (∀ project img,
       let subj := "sub-" +:+ Candidate img in
       let ses := "ses-" +:+ Visit img in
       let '(modality, suffix) :=
         modality_suffix (Str.lower (ScanType img)) in
       str (target_of project img) =
         components [project; subj; ses; modality;
                     bids_name subj ses suffix]) ∧
  str (target_of "loris"
         {| Candidate := "123"; Visit := "V1"; ScanType := "t2_flair";
            Link := "/candidates/123/V1/images/a.mnc" |})
    ≠ "loris/sub-123/ses-V1/anat/sub-123_ses-V1_T2w.mnc".
Proof.
  split.
  - intros H.
    specialize (H "loris"
      {| Candidate := "123"; Visit := "V1"; ScanType := "t2_flair";
         Link := "/candidates/123/V1/images/a.mnc" |}).
    vm_compute in H. discriminate H.
  - vm_compute. discriminate.
Qed.

End Resolver.

(** ** Loading the manifest *)

Section Load.

Implicit Types (s : state) (hdr row : list string)
  (d : gmap string (option string)).

Lemma py_dict_keys {V} (pairs : list (string * V)) (m : gmap string V) k :
  is_Some (Csv.py_dict m pairs !! k) ↔ is_Some (m !! k) ∨ k ∈ pairs.*1.
Proof.
  revert m. induction pairs as [|[k' v] pairs IH]; intros m; cbn.
  - set_solver.
  - unfold Csv.py_dict in IH. rewrite IH. cbn.
    rewrite lookup_insert_is_Some. set_unfold.
    destruct (decide (k' = k)); naive_solver.
Qed.

Lemma restval_keys (keys : list string) d k :
  is_Some (foldl (λ d key, <[key := None]> d) d keys !! k)
  ↔ is_Some (d !! k) ∨ k ∈ keys.
Proof.
  revert d. induction keys as [|k' keys IH]; intros d; cbn.
  - set_solver.
  - rewrite IH, lookup_insert_is_Some. set_unfold.
    destruct (decide (k' = k)); naive_solver.
Qed.

Lemma zip_keys {A B} (l : list A) (k : list B) :
  (zip l k).*1 = take (List.length k) l.
Proof.
  revert k. induction l as [|x l IH]; intros [|y k]; cbn; [done..|].
  by rewrite IH.
Qed.

(** Every dictionary of the reader has exactly the keys of the header. *)
Lemma dict_row_keys hdr row k :
  is_Some (Csv.dict_row hdr row !! k) ↔ k ∈ hdr.
Proof.
  unfold Csv.dict_row.
  assert ((zip hdr (Some <$> row)).*1 = take (List.length row) hdr) as Hz.
  { by rewrite zip_keys, length_fmap. }
  destruct (Nat.ltb_spec (List.length hdr) (List.length row)) as [Hlt|Hge].
  - rewrite py_dict_keys, Hz, lookup_empty, take_ge by lia.
    split; [intros [[? [=]]|]|]; eauto.
  - rewrite restval_keys, py_dict_keys, Hz, lookup_empty.
    rewrite <- (take_drop (List.length row) hdr) at 3.
    rewrite elem_of_app. split; [intros [[[? [=]]|]|]|]; eauto.
    intros [|]; eauto.
Qed.

(** The text layer: a string without carriage return is read as it was
    written, and a string that is read without line feed was written
    without carriage return. *)
Lemma universal_newlines_plain (x : string) :
  Str.contains "013" x = false → Csv.universal_newlines x = x.
Proof.
  induction x as [|c r IH]; [done|].
  cbn [Str.contains Csv.universal_newlines].
  intros [Hc Hr]%orb_false_iff. rewrite Hc. by rewrite (IH Hr).
Qed.

Lemma universal_newlines_line_feed (x : string) :
  Str.contains "010" (Csv.universal_newlines x) = false →
  Csv.universal_newlines x = x.
Proof.
  induction x as [|c r IH]; [done|].
  cbn [Csv.universal_newlines].
  destruct (Ascii.eqb c "013") eqn:Hc.
  - destruct r as [|d r']; [done|]. by destruct (Ascii.eqb d "010").
  - cbn [Str.contains]. intros [_ Hr]%orb_false_iff. by rewrite (IH Hr).
Qed.

Lemma read_text_cons row (recs : list (list string)) :
  Csv.read_text (row :: recs)
  = (Csv.universal_newlines <$> row) :: Csv.read_text recs.
Proof. reflexivity. Qed.

Lemma read_text_app (recs recs' : list (list string)) :
  Csv.read_text (recs ++ recs')
  = (Csv.read_text recs ++ Csv.read_text recs')%list.
Proof. unfold Csv.read_text. by rewrite fmap_app. Qed.

Lemma read_text_nonblank (recs : list (list string)) :
  List.filter Csv.nonblank (Csv.read_text recs)
  = Csv.read_text (List.filter Csv.nonblank recs).
Proof.
  induction recs as [|row recs IH]; [done|].
  rewrite read_text_cons. cbn [List.filter].
  destruct row as [|x row]; cbn [fmap list_fmap Csv.nonblank]; [done|].
  by rewrite read_text_cons, IH.
Qed.

Lemma read_header_column hdr :
  "target_path" ∈ (Csv.universal_newlines <$> hdr) ↔ "target_path" ∈ hdr.
Proof.
  rewrite list_elem_of_fmap. split.
  - intros (x & Hx & Hin).
    rewrite universal_newlines_line_feed in Hx by (by rewrite <- Hx).
    by subst x.
  - intros Hin. by exists "target_path".
Qed.

Lemma load_loop_ok (ds : list (gmap string (option string))) s :
  kill_after s = None →
  (∀ d, d ∈ ds → is_Some (d !! "target_path")) →
  for_each ds add_target_path s =
    (Ok tt,
     set_existing_files
       (list_to_set ((λ d, default None (d !! "target_path")) <$> ds)
          ∪ existing_files s) s).
Proof.
  revert s. induction ds as [|d ds IH]; intros s Hk Hds.
  - cbn. unfold ret. f_equal. destruct s; unfold set_existing_files; cbn.
    f_equal. set_solver.
  - destruct (Hds d) as [v Hv]; [set_solver|].
    cbn [for_each]. unfold bind at 1.
    unfold add_target_path at 1, getitem, existing_files_add, bind, tick, ret.
    rewrite Hv, Hk.
    rewrite IH; [|done|set_solver].
    f_equal. destruct s; unfold set_existing_files; cbn. f_equal.
    rewrite Hv. cbn. set_solver.
Qed.

Lemma load_loop_fail (ds : list (gmap string (option string))) d s :
  d !! "target_path" = None →
  (for_each (d :: ds) add_target_path s).1 = Raise (KeyError "target_path").
Proof.
  intros Hd. cbn [for_each]. unfold bind at 1.
  unfold add_target_path, getitem, bind, raise. by rewrite Hd.
Qed.

Lemma load_manifest_unfold s :
  load_manifest s =
    match manifest s with
    | None => (Ok tt, s)
    | Some recs =>
        for_each (Csv.DictReader (Csv.read_text recs)) add_target_path s
    end.
Proof. unfold load_manifest, bind, get_state. by destruct (manifest s). Qed.

(** A row too short to reach the sixth column reads as [None]. *)
Lemma short_row_reads_None row :
  (List.length row ≤ 5)%nat →
  Csv.dict_row fieldnames row !! "target_path" = Some None.
Proof.
  intros Hlen.
  destruct row as [|a [|b [|c [|d [|e [|f r]]]]]];
    cbn in Hlen; try lia; reflexivity.
Qed.

(** A row of the writer reads back with its destination path. *)
Lemma written_row_reads r :
  Csv.dict_row fieldnames (dict_to_list r) !! "target_path"
    = Some (Some (row_target_path r)).
Proof. reflexivity. Qed.

(** C7, as the code has it: without a file the set stays empty; with a
    file whose header has the column [target_path] the set is that of
    the [target_path] values of all rows, [None] for a row too short to
    have the field, and loading does not fail; loading fails, with a
    [KeyError], when the header lacks the column and there is a row. *)
Theorem load_manifest_paths :
  load_manifest (start None None) = (Ok tt, start None None) ∧
  (∀ hdr rest, "target_path" ∈ hdr →
     load_manifest (start (Some (hdr :: rest)) None) =
       (Ok tt, set_existing_files (list_to_set (column (hdr :: rest)))
                 (start (Some (hdr :: rest)) None))) ∧
  (∀ rest row, row ∈ rest → (0 < List.length row ≤ 5)%nat →
     None ∈ (list_to_set (column (fieldnames :: rest))
               : gset (option string))) ∧
  (∀ hdr rest, "target_path" ∉ hdr → List.filter Csv.nonblank rest ≠ [] →
     (load_manifest (start (Some (hdr :: rest)) None)).1
       = Raise (KeyError "target_path")).
Proof.
  split; [done|]. split; [|split].
  - intros hdr rest Hin. rewrite load_manifest_unfold. cbn [manifest start].
    rewrite load_loop_ok; [|done|].
    + f_equal. unfold set_existing_files, column. cbn. f_equal. set_solver.
    + intros d. rewrite read_text_cons. cbn [Csv.DictReader].
      rewrite list_elem_of_fmap. intros (row & -> & _).
      by apply dict_row_keys, read_header_column.
  - intros rest row Hin Hlen. rewrite elem_of_list_to_set.
    unfold column. rewrite read_text_cons. cbn [Csv.DictReader].
    change (Csv.universal_newlines <$> fieldnames) with fieldnames.
    rewrite list_elem_of_fmap.
    exists (Csv.dict_row fieldnames (Csv.universal_newlines <$> row)). split.
    + rewrite short_row_reads_None by (rewrite length_fmap; lia). done.
    + apply list_elem_of_fmap_2. rewrite read_text_nonblank.
      apply (list_elem_of_fmap_2 (fmap Csv.universal_newlines)).
      apply list_elem_of_In, filter_In.
      split; [by apply list_elem_of_In|]. destruct row; cbn in *; [lia|done].
  - intros hdr rest Hin Hrows. rewrite load_manifest_unfold.
    cbn [manifest start]. rewrite read_text_cons. cbn [Csv.DictReader].
    rewrite read_text_nonblank.
    destruct (List.filter Csv.nonblank rest) as [|row rows]; [done|].
    rewrite read_text_cons. cbn [fmap list_fmap]. apply load_loop_fail.
    apply eq_None_not_Some. by rewrite dict_row_keys, read_header_column.
Qed.

Lemma load_manifest_paths_witness :
  load_manifest (start (Some [fieldnames; ["loris"; "123"; "V1"]]) None) =
    (Ok tt, set_existing_files
              (list_to_set (column [fieldnames; ["loris"; "123"; "V1"]]))
              (start (Some [fieldnames; ["loris"; "123"; "V1"]]) None)) ∧
  None ∈ (list_to_set (column [fieldnames; ["loris"; "123"; "V1"]])
            : gset (option string)) ∧
  (load_manifest
     (start (Some [["project"; "url"]; ["loris"; "https://x/a.mnc"]]) None)).1
    = Raise (KeyError "target_path").
Proof.
  destruct load_manifest_paths as (_ & Hok & Hshort & Hfail).
  split; [|split].
  - apply Hok. unfold fieldnames. set_solver.
  - apply (Hshort _ ["loris"; "123"; "V1"]); [set_solver|cbn; lia].
  - apply Hfail; [|done].
    rewrite !elem_of_cons, elem_of_nil. intros [?|[?|[]]]; discriminate.
Defined.

(** C7 as stated fails: a row without the destination-path field does not
    make loading fail; it puts [None] into the set. *)
Lemma short_row_does_not_fail :
  ¬ (∀ hdr rest row, row ∈ List.filter Csv.nonblank rest →
       ¬ has_target_path hdr row →
       ∃ e, (load_manifest (start (Some (hdr :: rest)) None)).1 = Raise e).
Proof.
  intros H.
  destruct (H fieldnames [["loris"; "123"; "V1"]] ["loris"; "123"; "V1"])
    as [e He].
  - cbn. set_solver.
  - intros [v Hv]. vm_compute in Hv. discriminate Hv.
  - vm_compute in He. discriminate He.
Qed.

End Load.

(** ** Enumeration *)

Section Enumeration.

Implicit Types (w : world) (s : state).

Lemma tick_alive s : kill_after s ≠ Some O → tick s = (Ok tt, ticked s).
Proof.
  unfold tick, ticked. destruct s as [X F B T [[|n]|]]; cbn; done.
Qed.

Lemma tick_dead s : kill_after s = Some O → tick s = (Raise Interrupted, s).
Proof. unfold tick. by intros ->. Qed.

Lemma http_get_alive {A} url (reply : response A) s :
  kill_after s ≠ Some O →
  http_get url reply s =
    match reply with
    | HttpFail => (Raise (HTTPError url), called (HttpGet url) s)
    | HttpJson body => (Ok body, called (HttpGet url) s)
    end.
Proof.
  intros Hk. unfold http_get, bind. rewrite (tick_alive _ Hk).
  by destruct reply.
Qed.

Lemma http_get_dead {A} url (reply : response A) s :
  kill_after s = Some O → http_get url reply s = (Raise Interrupted, s).
Proof. intros Hk. unfold http_get, bind. by rewrite (tick_dead _ Hk). Qed.

(** C8: a project whose enumeration returns no record raises nothing
    and writes nothing, neither a header nor a row: its processing
    leaves the dedup set, the manifest file and the file object as they
    were, and the loop goes on with the next project. *)
Theorem empty_project_is_skipped w project rest s :
  get_images w (images_url w project) = HttpJson {| Images := Some [] |} →
  kill_after s ≠ Some O →
  let s' := called (HttpGet (images_url w project)) s in
  process_project w project s = (Ok tt, s') ∧
  existing_files s' = existing_files s ∧
  manifest s' = manifest s ∧
  f_out s' = f_out s ∧
  for_each (project :: rest) (process_project w) s
    = for_each rest (process_project w) s'.
Proof.
  intros Himg Hk s'.
  assert (process_project w project s = (Ok tt, s')) as Hrun.
  { unfold process_project, bind.
    rewrite (http_get_alive _ _ _ Hk), Himg. done. }
  repeat split; try done.
  cbn [for_each]. unfold bind at 1. by rewrite Hrun.
Qed.

(** C10: a projects answer without the key ["Projects"] is handled as
    one with an empty project set: the run is aborted with the
    no-projects error after the one request, as it is in a world that
    answers with an empty set.  An images answer without the key
    ["Images"], in any world, is handled as an empty list of records:
    the project is processed without an error and without a change but
    the request, as it is in a world that answers with an empty list,
    and the loop goes on with the next project. *)
Theorem missing_key_is_empty w s :
  (get_projects w = HttpJson {| Projects := None |} →
     (kill_after s ≠ Some O →
        ingest w s =
          (Raise (RuntimeError "No projects returned by API"),
           called (HttpGet (API_BASE w +:+ "/projects")) s)) ∧
     (∀ w', API_BASE w' = API_BASE w →
            get_projects w' = HttpJson {| Projects := Some ∅ |} →
            ingest w' s = ingest w s ∧ main w' s = main w s)) ∧
  (∀ project,
     get_images w (images_url w project) = HttpJson {| Images := None |} →
     (kill_after s ≠ Some O →
        process_project w project s
          = (Ok tt, called (HttpGet (images_url w project)) s) ∧
        ∀ rest,
          for_each (project :: rest) (process_project w) s
          = for_each rest (process_project w)
              (called (HttpGet (images_url w project)) s)) ∧
     (∀ w', API_BASE w' = API_BASE w →
            get_images w' (images_url w' project)
              = HttpJson {| Images := Some [] |} →
            process_project w' project s = process_project w project s)).
Proof.
  split.
  - intros Hp. split.
    + intros Hk. unfold ingest, bind at 1. unfold fetch_projects, bind.
      rewrite (http_get_alive _ _ _ Hk), Hp. cbn. by rewrite decide_True.
    + intros w' Hbase Hp'.
      assert (∀ s0, ingest w' s0 = ingest w s0) as Hingest.
      { intros s0. unfold ingest, bind at 1 6. unfold fetch_projects, bind.
        rewrite Hbase, Hp, Hp'. unfold http_get, bind.
        destruct (tick s0) as [[[]|e] s1]; [|done].
        cbn. by rewrite !decide_True. }
      split; [apply Hingest|].
      unfold main, bind. destruct (load_manifest s) as [[[]|e] s0]; [|done].
      apply Hingest.
  - intros project Hi. split.
    + intros Hk.
      assert (process_project w project s
              = (Ok tt, called (HttpGet (images_url w project)) s)) as Hrun.
      { unfold process_project, bind.
        rewrite (http_get_alive _ _ _ Hk), Hi. done. }
      split; [done|]. intros rest.
      cbn [for_each]. unfold bind at 1. by rewrite Hrun.
    + intros w' Hbase Hi'.
      assert (images_url w' project = images_url w project) as Hurl.
      { unfold images_url. by rewrite Hbase. }
      unfold process_project, bind. rewrite Hurl in Hi' |- *.
      rewrite Hi, Hi'. unfold http_get, bind.
      by destruct (tick s) as [[[]|e] s1].
Qed.

End Enumeration.

(** ** One record *)

Section Record.

Variable w : world.

Implicit Types (s : state) (project : string) (img : image).

Lemma process_image_unfold project img :
  process_image w project img =
    (s <- get_state ;;
     if bool_decide (Some (str (target_of project img)) ∈ existing_files s)
     then ret tt
     else
       mkdir w (joinpath (DATASET_DIR w) (parent (target_of project img))) ;;
       subprocess_run w (addurl_of w project img) ;;
       writerow (row_of w project img) ;;
       existing_files_add (Some (str (target_of project img))) ;;
       if args_get w then subprocess_run w (get_of project img)
       else ret tt).
Proof.
  unfold process_image, row_of, addurl_of, get_of, target_of.
  by destruct (bids_path img).
Qed.

Local Ltac solve_effect :=
  repeat split; cbn; rewrite <- ?app_assoc, ?app_nil_r; done.

Lemma process_image_step project img s :
  image_step w project img s
    (process_image w project img s).1 (process_image w project img s).2.
Proof.
  rewrite process_image_unfold.
  unfold mkdir, subprocess_run, writerow, existing_files_add, f_out_write,
    log, tick, bind, get_state, ret, raise.
  fold (mkdir_of w project img).
  case_bool_decide as Hin; [by apply step_skip|].
  destruct s as [X F B T k]. cbn in Hin |- *.
  destruct k as [[|[|[|[|[|n]]]]]|]; cbn;
    repeat match goal with
           | |- context [if ?b then _ else _] => destruct b eqn:?; cbn
           end;
    first
      [ eapply (step_killed_early _ _ _ _ _ []);
          [done|set_solver|solve_effect]
      | eapply (step_killed_early _ _ _ _ _ [mkdir_of w project img]);
          [done|set_solver|solve_effect]
      | eapply (step_killed_early _ _ _ _ _
                  [mkdir_of w project img; addurl_of w project img]);
          [done|set_solver|solve_effect]
      | eapply step_mkdir_failed; [done|solve_effect]
      | eapply step_addurl_failed; [done|done|solve_effect]
      | eapply step_killed_before_add; [done|done|solve_effect]
      | eapply (step_registered _ _ _ _ _ _ []);
          [done|done|left; split; [done|]; by auto|solve_effect]
      | eapply (step_registered _ _ _ _ _ _ [get_of project img]);
          [done|done|right; repeat split; by auto|solve_effect] ].
Qed.

End Record.

(** ** Triples *)

Section Triples.

Context {A B : Type}.

Implicit Types (P : books → Prop) (E : exn → books → Prop).

Lemma triple_ret P (a : A) (Q : A → books → Prop) E :
  (∀ b, P b → Q a b) → triple P (ret a) Q E.
Proof. intros H s Hs. cbn. auto. Qed.

Lemma triple_raise P e (Q : A → books → Prop) E :
  (∀ b, P b → E e b) → triple P (raise e) Q E.
Proof. intros H s Hs. cbn. auto. Qed.

Lemma triple_bind P (m : M A) (f : A → M B) (R : A → books → Prop)
    (Q : B → books → Prop) E :
  triple P m R E → (∀ a, triple (R a) (f a) Q E) →
  triple P (bind m f) Q E.
Proof.
  intros Hm Hf s Hs. unfold bind. specialize (Hm s Hs).
  destruct (m s) as [[a|e] s']; [|done]. by apply Hf.
Qed.

Lemma triple_conseq (P P' : books → Prop) (m : M A)
    (Q Q' : A → books → Prop) (E E' : exn → books → Prop) :
  triple P' m Q' E' →
  (∀ b, P b → P' b) → (∀ a b, Q' a b → Q a b) → (∀ e b, E' e b → E e b) →
  triple P m Q E.
Proof.
  intros Hm HP HQ HE s Hs. specialize (Hm s (HP _ Hs)).
  destruct (m s) as [[a|e] s']; auto.
Qed.

Lemma triple_get_state P (Q : state → books → Prop) E :
  (∀ s, P (books_of s) → Q s (books_of s)) → triple P get_state Q E.
Proof. intros H s Hs. cbn. auto. Qed.

End Triples.

Lemma triple_for_each {A} (I : list A → books → Prop) E (l : list A)
    (body : A → M unit) :
  (∀ seen x rest, l = (seen ++ x :: rest)%list →
     triple (I seen) (body x) (λ _, I (seen ++ [x])%list) E) →
  triple (I []) (for_each l body) (λ _, I l) E.
Proof.
  intros Hbody.
  assert (∀ rest seen, l = (seen ++ rest)%list →
            triple (I seen) (for_each rest body) (λ _, I l) E) as Hgen.
  { induction rest as [|x rest IH]; intros seen Hl.
    - rewrite app_nil_r in Hl. subst seen. by apply triple_ret.
    - cbn [for_each]. eapply triple_bind; [by apply (Hbody seen x rest)|].
      intros []. apply IH. by rewrite <- app_assoc. }
  by apply (Hgen l []).
Qed.

(** ** The books under each action *)

Section Books.

Variable w : world.

Implicit Types (s : state) (b : books) (ev : event).

Local Ltac crush_books :=
  unfold books_of, appended, registered, writes; cbn;
  rewrite ?omap_app; cbn; rewrite ?app_nil_r; try done.

Lemma tick_cases s :
  tick s = (Raise Interrupted, s) ∨
  ∃ s', tick s = (Ok tt, s') ∧ books_of s' = books_of s ∧
        trace s' = trace s.
Proof.
  unfold tick. destruct (kill_after s) as [[|n]|]; eauto.
Qed.

Lemma books_of_log ev s :
  quiet ev = true → books_of (log ev s).2 = books_of s.
Proof. intros Hq. destruct ev; try done; crush_books. Qed.

Lemma http_get_books {A} url (reply : response A) s :
  books_of (http_get url reply s).2 = books_of s.
Proof.
  unfold http_get, bind.
  destruct (tick_cases s) as [->|(s' & -> & Hb & _)]; [done|].
  rewrite <- Hb. destruct reply; by apply (books_of_log (HttpGet url) s').
Qed.

Lemma mkdir_books p s : books_of (mkdir w p s).2 = books_of s.
Proof.
  unfold mkdir, bind, get_state.
  destruct (tick_cases s) as [->|(s' & -> & Hb & _)]; [done|].
  rewrite <- Hb. cbn.
  destruct (command_ok _ _ _); by apply (books_of_log (Mkdir (str p)) s').
Qed.

Lemma subprocess_run_books cmd s :
  quiet cmd = true → books_of (subprocess_run w cmd s).2 = books_of s.
Proof.
  intros Hq. unfold subprocess_run, bind, get_state.
  destruct (tick_cases s) as [->|(s' & -> & Hb & _)]; [done|].
  rewrite <- Hb. cbn.
  destruct (command_ok _ _ _); cbn; by apply (books_of_log cmd s').
Qed.

Lemma open_append_cases s :
  (open_append s).1 = Raise Interrupted ∧
    books_of (open_append s).2 = books_of s ∨
  (open_append s).1 = Ok tt ∧
    books_of (open_append s).2 = opened (books_of s).
Proof.
  unfold open_append, bind.
  destruct (tick_cases s) as [->|(s' & -> & Hb & _)]; [by left|].
  right. rewrite <- Hb. split; [done|]. crush_books.
Qed.

Lemma writeheader_cases s :
  (writeheader s).1 = Raise Interrupted ∧
    books_of (writeheader s).2 = books_of s ∨
  (writeheader s).1 = Ok tt ∧
    books_of (writeheader s).2 = header_written (books_of s).
Proof.
  unfold writeheader, bind.
  destruct (tick_cases s) as [->|(s' & -> & Hb & _)]; [by left|].
  right. rewrite <- Hb. split; [done|]. crush_books.
Qed.

Lemma close_cases s :
  (close s).1 = Raise Interrupted ∧ books_of (close s).2 = books_of s ∨
  (close s).1 = Ok tt ∧ books_of (close s).2 = flushed (books_of s).
Proof.
  unfold close, bind.
  destruct (tick_cases s) as [->|(s' & -> & Hb & _)]; [by left|].
  right. rewrite <- Hb. split; [done|]. crush_books.
Qed.

Lemma existing_files_add_cases v s :
  (existing_files_add v s).1 = Raise Interrupted ∧
    books_of (existing_files_add v s).2 = books_of s ∨
  (existing_files_add v s).1 = Ok tt ∧
    books_of (existing_files_add v s).2 = path_added v (books_of s).
Proof.
  unfold existing_files_add, bind.
  destruct (tick_cases s) as [->|(s' & -> & Hb & _)]; [by left|].
  right. by rewrite <- Hb.
Qed.

(** A computation that leaves the books alone keeps every invariant. *)
Lemma triple_quiet {A} (m : M A) (P : books → Prop) :
  (∀ s, books_of (m s).2 = books_of s) →
  triple P m (λ _, P) (λ _, P).
Proof.
  intros Hm s Hs. specialize (Hm s).
  destruct (m s) as [[a|e] s']; cbn in Hm; by rewrite Hm.
Qed.

(** The books after the processing of one record. *)
Lemma image_step_books project img s r s' :
  image_step w project img s r s' →
  let b := books_of s in
  let t := str (target_of project img) in
  let a := (API_BASE w +:+ Link img, t) in
  let row := row_of w project img in
  (r = Ok tt ∧ Some t ∈ bk_set b ∧ books_of s' = b) ∨
  ((Some t ∉ bk_set b) ∧
   ((r ≠ Ok tt ∧
       (books_of s' = b ∨ books_of s' = registration_asked a b)) ∨
    (r = Raise Interrupted ∧
       books_of s' = row_written row (registration_asked a b)) ∨
    books_of s'
      = path_added (Some t) (row_written row (registration_asked a b)))).
Proof.
  intros Hstep b t a row.
  destruct Hstep as [Hin|s' evs Hin Hevs (HX & HF & HB & HT)
    |s' p Hin (HX & HF & HB & HT)|s' Hin Hok (HX & HF & HB & HT)
    |s' Hin Hok (HX & HF & HB & HT)|s' r evs Hin Hok Hevs (HX & HF & HB & HT)].
  - by left.
  - right. split; [done|]. left. split; [done|].
    set_unfold in Hevs. unfold mkdir_of, addurl_of in Hevs.
    destruct Hevs as [->|[->|[->|[]]]]; [left|left|right];
      unfold books_of; rewrite HX, HF, HB, HT; subst b; crush_books.
  - right. split; [done|]. left. split; [done|]. left.
    unfold books_of; rewrite HX, HF, HB, HT; subst b; crush_books.
  - right. split; [done|]. left. split; [done|]. right.
    unfold books_of; rewrite HX, HF, HB, HT; subst b; crush_books.
  - right. split; [done|]. right. left. split; [done|].
    unfold books_of; rewrite HX, HF, HB, HT; subst b; crush_books.
  - right. split; [done|]. right. right.
    destruct Hevs as [[-> _]|(-> & _)];
      unfold books_of; rewrite HX, HF, HB, HT; subst b; crush_books.
Qed.

End Books.

(** ** The invariants under each change of the books *)

Section Invariants.

Variables (L : gset (option string)) (F0 : option (list (list string))).

Implicit Types (b : books) (r : manifest_row).

Lemma paths_of_snoc rows r :
  paths_of (rows ++ [r]) = (paths_of rows ++ [Some (row_target_path r)])%list.
Proof. unfold paths_of. by rewrite fmap_app. Qed.

Lemma registrations_paths rows :
  (registration_of <$> rows).*2 = row_target_path <$> rows.
Proof. by rewrite <- list_fmap_compose. Qed.

Lemma path_registered rows f :
  f ∈ row_target_path <$> rows ↔ Some f ∈ paths_of rows.
Proof.
  unfold paths_of. rewrite !list_elem_of_fmap. split.
  - intros (r & -> & Hr). eauto.
  - intros (r & [= ->] & Hr). eauto.
Qed.

Lemma paths_nodup rows :
  NoDup (paths_of rows) ↔ NoDup (row_target_path <$> rows).
Proof.
  unfold paths_of.
  rewrite (list_fmap_compose row_target_path Some).
  apply (NoDup_fmap Some).
Qed.

(** Settled books with a consistent file are sound. *)
Lemma settled_sound b :
  settled L b →
  (default [] (bk_file b) ++ bk_out b)%list
    = (default [] F0 ++ bk_writes b)%list →
  (bk_writes b = [] ∧ bk_rows b = [] ∨
   bk_writes b = (header_for F0 ++ (dict_to_list <$> bk_rows b))%list) →
  sound L F0 b.
Proof.
  intros [Hset Hnd Hfr Hregs] Hview Hhdr.
  split; try done.
  - set_solver.
  - set_solver.
  - by left.
  - rewrite Hregs, registrations_paths. by apply paths_nodup.
  - intros f. rewrite Hregs, registrations_paths, path_registered. auto.
  - by rewrite Hregs.
Qed.

Lemma ready_settled b : ready L F0 b → settled L b.
Proof.
  intros (Hset & _ & _ & Hrows & Hregs & _).
  split; rewrite ?Hrows, ?Hregs; cbn.
  - set_solver.
  - constructor.
  - set_solver.
  - done.
Qed.

Lemma ready_stopped e b : ready L F0 b → stopped L F0 e b.
Proof.
  intros Hr. pose proof (ready_settled b Hr) as Hs.
  destruct Hr as (Hset & Hfile & Hout & Hrows & Hregs & Hw).
  split; [|intros _; apply Hs].
  apply settled_sound; [done| |by left].
  by rewrite Hfile, Hout, Hw.
Qed.

Lemma looping_stopped e b : looping L F0 b → stopped L F0 e b.
Proof.
  intros (Hs & Hfile & Hout & Hw).
  split; [|intros _; apply Hs].
  apply settled_sound; [done| |by right].
  by rewrite Hfile, Hout.
Qed.

Lemma closed_stopped e b : closed L F0 b → stopped L F0 e b.
Proof.
  intros (Hs & Hfile & Hout & Hw).
  split; [|intros _; apply Hs].
  apply settled_sound; [done| |by right].
  rewrite Hfile, Hout. cbn. by rewrite app_nil_r.
Qed.

(** Opening the file. *)
Lemma ready_opened_stopped e b : ready L F0 b → stopped L F0 e (opened b).
Proof.
  intros Hr. pose proof (ready_settled b Hr) as [Hset Hnd Hfr Hregs].
  destruct Hr as (_ & Hfile & Hout & Hrows & _ & Hw).
  split; [|intros _; apply Hset].
  apply settled_sound; [by split| |by left].
  cbn. by rewrite Hfile, Hout, Hw.
Qed.

Lemma ready_opened_looping b :
  ready L F0 b → is_Some F0 → looping L F0 (opened b).
Proof.
  intros Hr [recs HF]. pose proof (ready_settled b Hr) as [Hset Hnd Hfr Hregs].
  destruct Hr as (_ & Hfile & Hout & Hrows & _ & Hw).
  split; [by split|]. cbn. rewrite Hfile, Hout, Hw, Hrows, HF. done.
Qed.

Lemma ready_header_looping b :
  ready L F0 b → F0 = None → looping L F0 (header_written (opened b)).
Proof.
  intros Hr HF. pose proof (ready_settled b Hr) as [Hset Hnd Hfr Hregs].
  destruct Hr as (_ & Hfile & Hout & Hrows & _ & Hw).
  split; [by split|]. cbn. rewrite Hfile, Hout, Hw, Hrows, HF. done.
Qed.

(** Closing the file. *)
Lemma looping_flushed b : looping L F0 b → closed L F0 (flushed b).
Proof.
  intros ([Hset Hnd Hfr Hregs] & Hfile & Hout & Hw).
  split; [by split|]. cbn. rewrite Hfile, Hout. done.
Qed.

Lemma new_path b k :
  bk_set b = L ∪ list_to_set (paths_of (bk_rows b)) → k ∉ bk_set b →
  (k ∉ paths_of (bk_rows b)) ∧ (k ∉ L).
Proof.
  intros -> Hk. rewrite elem_of_union, elem_of_list_to_set in Hk. tauto.
Qed.

(** A registration is asked for a path that is not in the dedup set. *)
Lemma looping_asked_stopped e b u t :
  looping L F0 b → Some t ∉ bk_set b →
  stopped L F0 e (registration_asked (u, t) b).
Proof.
  intros ([Hset Hnd Hfr Hregs] & Hfile & Hout & Hw) Hnew.
  destruct (new_path b _ Hset Hnew) as [Hnew1 Hnew2].
  split; [|intros _; apply Hset].
  split; cbn; try done.
  - set_solver.
  - set_solver.
  - by left.
  - rewrite Hregs, fmap_app, registrations_paths. cbn.
    apply NoDup_app. split; [by apply paths_nodup|]. split.
    + intros f Hf Hf'. apply list_elem_of_singleton in Hf' as ->.
      by apply path_registered in Hf.
    + apply NoDup_singleton.
  - intros f. rewrite Hregs, fmap_app, registrations_paths, elem_of_app.
    cbn. rewrite list_elem_of_singleton, path_registered.
    intros [Hf| ->]; [auto|done].
  - rewrite Hregs. by apply prefix_app_r.
  - by rewrite Hfile, Hout.
  - by right.
Qed.

(** The row is written, its path is not yet in the dedup set. *)
Lemma looping_row_stopped b r :
  looping L F0 b → Some (row_target_path r) ∉ bk_set b →
  stopped L F0 Interrupted
    (row_written r (registration_asked (registration_of r) b)).
Proof.
  intros ([Hset Hnd Hfr Hregs] & Hfile & Hout & Hw) Hnew.
  destruct (new_path b _ Hset Hnew) as [Hnew1 Hnew2].
  split; [|done].
  split; cbn; rewrite ?paths_of_snoc.
  - set_solver.
  - set_solver.
  - right. by exists (bk_rows b), r.
  - apply NoDup_app. split; [done|]. split; [|apply NoDup_singleton].
    intros k Hk Hk'. by apply list_elem_of_singleton in Hk' as ->.
  - intros k. rewrite elem_of_app, list_elem_of_singleton.
    intros [Hk| ->]; [auto|done].
  - rewrite Hregs, fmap_app, registrations_paths. cbn.
    apply NoDup_app. split; [by apply paths_nodup|]. split.
    + intros f Hf Hf'. apply list_elem_of_singleton in Hf' as ->.
      by apply path_registered in Hf.
    + apply NoDup_singleton.
  - intros f. rewrite Hregs, fmap_app, registrations_paths, elem_of_app.
    cbn. rewrite list_elem_of_singleton, path_registered.
    intros [Hf| ->]; [auto|done].
  - by rewrite Hregs, fmap_app.
  - rewrite Hfile, Hout. cbn. by rewrite !app_assoc.
  - right. by rewrite Hw, fmap_app, app_assoc.
Qed.

(** The row is written and its path is in the dedup set. *)
Lemma looping_added b r :
  looping L F0 b → Some (row_target_path r) ∉ bk_set b →
  looping L F0
    (path_added (Some (row_target_path r))
       (row_written r (registration_asked (registration_of r) b))).
Proof.
  intros ([Hset Hnd Hfr Hregs] & Hfile & Hout & Hw) Hnew.
  destruct (new_path b _ Hset Hnew) as [Hnew1 Hnew2].
  split; [split|]; cbn; rewrite ?paths_of_snoc.
  - rewrite Hset, list_to_set_app_L. set_solver.
  - apply NoDup_app. split; [done|]. split; [|apply NoDup_singleton].
    intros k Hk Hk'. by apply list_elem_of_singleton in Hk' as ->.
  - intros k. rewrite elem_of_app, list_elem_of_singleton.
    intros [Hk| ->]; [auto|done].
  - by rewrite Hregs, fmap_app.
  - split; [done|]. rewrite Hout. split; [done|].
    by rewrite Hw, fmap_app, app_assoc.
Qed.

End Invariants.

(** ** The invariants along the script *)

Section Run.

Variables (w : world) (L : gset (option string))
  (F0 : option (list (list string))).

Lemma triple_quiet_stopped {A} (m : M A) (P : books → Prop) :
  (∀ s, books_of (m s).2 = books_of s) →
  (∀ e b, P b → stopped L F0 e b) →
  triple P m (λ _, P) (stopped L F0).
Proof.
  intros Hm HP. eapply triple_conseq; [by apply triple_quiet|..]; eauto.
Qed.

Lemma process_image_triple project img :
  triple (looping L F0) (process_image w project img)
    (λ _, looping L F0) (stopped L F0).
Proof.
  intros s Hs.
  pose proof (image_step_books w project img s _ _
                (process_image_step w project img s)) as Hstep.
  destruct (process_image w project img s) as [r s']. cbn in Hstep.
  destruct Hstep as [(-> & _ & ->)|(Hnew & [(Hr & Hb)|[(-> & ->)| ->]])].
  - done.
  - destruct r as [[]|e]; [done|].
    destruct Hb as [-> | ->];
      [by apply looping_stopped|by apply looping_asked_stopped].
  - by apply (looping_row_stopped L F0 _ (row_of w project img)).
  - pose proof (looping_added L F0 _ (row_of w project img) Hs Hnew) as Hl.
    destruct r as [[]|e]; [done|by apply looping_stopped].
Qed.

Lemma process_project_triple project :
  triple (looping L F0) (process_project w project)
    (λ _, looping L F0) (stopped L F0).
Proof.
  unfold process_project.
  eapply triple_bind.
  - apply triple_quiet_stopped; [apply http_get_books|].
    intros e b. apply looping_stopped.
  - intros body. cbn beta.
    apply (triple_for_each (λ _, looping L F0)).
    intros _ img _ _. apply process_image_triple.
Qed.

Lemma fetch_projects_triple :
  triple (ready L F0) (fetch_projects w) (λ _, ready L F0) (stopped L F0).
Proof.
  unfold fetch_projects.
  eapply triple_bind.
  - apply triple_quiet_stopped; [apply http_get_books|].
    intros e b. apply ready_stopped.
  - intros body. cbn beta zeta. case_decide.
    + apply triple_raise. intros b. apply ready_stopped.
    + by apply triple_ret.
Qed.

Lemma triple_pure {A} (φ : Prop) (P : books → Prop) (m : M A) Q E :
  (φ → triple P m Q E) → triple (λ b, P b ∧ φ) m Q E.
Proof. intros H s [Hs Hφ]. by apply H. Qed.

Lemma open_writer_triple :
  triple (ready L F0) (open_writer w) (λ _, looping L F0) (stopped L F0).
Proof.
  unfold open_writer.
  eapply (triple_bind _ _ _
            (λ s b, ready L F0 b ∧ manifest s = F0)).
  { apply triple_get_state. intros s Hs. split; [done|].
    by destruct Hs as (_ & ? & _). }
  intros s0. apply triple_pure. intros HF0.
  eapply (triple_bind _ _ _ (λ _, ready L F0)).
  { apply triple_quiet_stopped; [apply mkdir_books|].
    intros e b. apply ready_stopped. }
  intros _. eapply (triple_bind _ _ _
            (λ _ b, ∃ b0, ready L F0 b0 ∧ b = opened b0)).
  { intros s Hs. destruct (open_append_cases s) as [[Hr Hb]|[Hr Hb]];
      destruct (open_append s) as [r s']; cbn in Hr, Hb; subst r;
      rewrite Hb; [by apply ready_stopped|eauto]. }
  intros _. intros s (b0 & Hb0 & Hs).
  destruct (manifest s0) as [recs|] eqn:HF.
  - rewrite bool_decide_true by eauto. cbn. rewrite Hs.
    apply ready_opened_looping; [done|]. rewrite <- HF0. eauto.
  - rewrite bool_decide_false by (by intros [? ?]). cbn [negb].
    destruct (writeheader_cases s) as [[Hr Hb]|[Hr Hb]];
      destruct (writeheader s) as [r s']; cbn in Hr, Hb; subst r;
      rewrite Hb, Hs.
    + by apply ready_opened_stopped.
    + by apply ready_header_looping.
Qed.

Lemma close_triple :
  triple (looping L F0) close (λ _, closed L F0) (stopped L F0).
Proof.
  intros s Hs. destruct (close_cases s) as [[Hr Hb]|[Hr Hb]];
    destruct (close s) as [r s']; cbn in Hr, Hb; subst r; rewrite Hb.
  - by apply looping_stopped.
  - by apply looping_flushed.
Qed.

Lemma ingest_triple :
  triple (ready L F0) (ingest w) (λ _, closed L F0) (stopped L F0).
Proof.
  unfold ingest.
  eapply triple_bind; [apply fetch_projects_triple|]. intros names.
  eapply triple_bind; [apply open_writer_triple|]. intros [].
  eapply triple_bind.
  { apply (triple_for_each (λ _, looping L F0)).
    intros _ project _ _. apply process_project_triple. }
  intros [].
  eapply triple_bind; [apply close_triple|]. intros [].
  apply triple_quiet_stopped; [intros s; by apply subprocess_run_books|].
  intros e b. apply closed_stopped.
Qed.

End Run.

Section Main.

Variables (w : world) (F0 : option (list (list string))).

Let L : gset (option string) := list_to_set (prior_paths F0).

Let vals (ds : list (gmap string (option string))) : list (option string) :=
  (λ d, default None (d !! "target_path")) <$> ds.

Lemma add_target_path_triple (l seen rest : list (gmap string (option string)))
    d :
  l = (seen ++ d :: rest)%list → L = list_to_set (vals l) →
  triple
    (λ b, loading L F0 b ∧ bk_set b = list_to_set (vals seen))
    (add_target_path d)
    (λ _ b, loading L F0 b ∧ bk_set b = list_to_set (vals (seen ++ [d])))
    (λ e b, loading L F0 b ∧ (e = Interrupted ∨ e = KeyError "target_path")).
Proof.
  intros Hl HL s [Hload Hset].
  unfold add_target_path, bind, getitem.
  destruct (d !! "target_path") as [v|] eqn:Hd; cbn; [|by eauto].
  destruct (existing_files_add_cases v s) as [[Hr Hb]|[Hr Hb]];
    destruct (existing_files_add v s) as [r s']; cbn in Hr, Hb; subst r;
    change (existing_files s') with (bk_set (books_of s'));
    rewrite Hb; [by eauto|].
  destruct Hload as (Hsub & Hrest).
  assert (list_to_set (vals (seen ++ [d])) =@{gset (option string)}
            {[v]} ∪ bk_set (books_of s)) as Hnew.
  { rewrite Hset. unfold vals. rewrite fmap_app, list_to_set_app_L. cbn.
    rewrite Hd. cbn. set_solver. }
  split; [split; [|exact Hrest]|by rewrite Hnew].
  change ({[v]} ∪ bk_set (books_of s) ⊆ L). rewrite <- Hnew, HL, Hl.
  unfold vals. rewrite !fmap_app. cbn. rewrite !list_to_set_app_L.
  set_solver.
Qed.

Lemma load_manifest_triple :
  triple (λ b, ready ∅ F0 b) load_manifest
    (λ _, ready L F0)
    (λ e b, loading L F0 b ∧ (e = Interrupted ∨ e = KeyError "target_path")).
Proof.
  unfold load_manifest.
  eapply (triple_bind _ _ _ (λ s b, ready ∅ F0 b ∧ manifest s = F0)).
  { apply triple_get_state. intros s Hs. split; [done|].
    by destruct Hs as (_ & ? & _). }
  intros s0. apply triple_pure. intros HF0.
  destruct (manifest s0) as [recs|] eqn:HF.
  - eapply triple_conseq.
    + apply (triple_for_each
        (λ seen b, loading L F0 b ∧ bk_set b = list_to_set (vals seen))).
      intros seen d rest Hl.
      apply (add_target_path_triple _ _ _ _ Hl).
      subst L. unfold prior_paths. by rewrite <- HF0.
    + intros b (Hset & Hrest). split; [|by rewrite Hset].
      split; [rewrite Hset; set_solver|done].
    + intros _ b [(Hsub & Hrest) Hset]. split; [|done].
      rewrite Hset. subst L. unfold prior_paths. by rewrite <- HF0.
    + done.
  - apply triple_ret. intros b (Hset & Hrest). split; [|done].
    rewrite Hset. subst L. unfold prior_paths. by rewrite <- HF0.
Qed.

Lemma main_triple :
  triple (λ b, ready ∅ F0 b) (main w)
    (λ _, closed L F0) (λ e, run_ends L F0 (Raise e)).
Proof.
  unfold main. eapply triple_bind.
  - eapply triple_conseq; [apply load_manifest_triple|done|done|].
    intros e b Hb. by left.
  - intros []. eapply triple_conseq; [apply ingest_triple|done|done|].
    intros e b Hb. by right.
Qed.

Lemma add_target_path_trace d s :
  trace (add_target_path d s).2 = trace s.
Proof.
  unfold add_target_path, bind, getitem, existing_files_add, bind.
  destruct (d !! "target_path"); [|done]. cbn.
  destruct (tick_cases s) as [->|(s' & -> & _ & Ht)]; done.
Qed.

Lemma load_manifest_trace s : trace (load_manifest s).2 = trace s.
Proof.
  unfold load_manifest, bind, get_state.
  destruct (manifest s) as [recs|]; [|done].
  generalize (Csv.DictReader (Csv.read_text recs)). intros ds. revert s.
  induction ds as [|d ds IH]; intros s; [done|].
  cbn [for_each]. unfold bind.
  pose proof (add_target_path_trace d s) as Hd.
  destruct (add_target_path d s) as [[[]|e] s']; cbn in Hd; [|done].
  by rewrite IH.
Qed.

(** Once a call is in the trace the loading is over. *)
Lemma main_after_loading k :
  trace (main w (start F0 k)).2 ≠ [] →
  match (main w (start F0 k)).1 with
  | Ok _ => closed L F0 (books_of (main w (start F0 k)).2)
  | Raise e => stopped L F0 e (books_of (main w (start F0 k)).2)
  end.
Proof.
  unfold main, bind.
  pose proof (load_manifest_trace (start F0 k)) as Htr.
  pose proof (load_manifest_triple (start F0 k)) as Hload.
  destruct (load_manifest (start F0 k)) as [[[]|e] s1]; cbn in Htr.
  - intros _. pose proof (ingest_triple w L F0 s1 (Hload ltac:(done))) as H.
    by destruct (ingest w s1) as [[[]|e] s2].
  - cbn. by rewrite Htr.
Qed.

(** The books at the end of a run, however it ends. *)
Lemma main_books k :
  run_ends L F0 (main w (start F0 k)).1 (books_of (main w (start F0 k)).2).
Proof.
  pose proof (main_triple (start F0 k)) as H.
  destruct (main w (start F0 k)) as [[[]|e] s]; by apply H.
Qed.

Lemma run_ends_sound r b :
  run_ends L F0 r b → sound L F0 b ∨ loading L F0 b.
Proof.
  destruct r as [[]|e]; cbn.
  - intros H. left. by apply (closed_stopped L F0 Interrupted).
  - intros [[H _]|[H _]]; auto.
Qed.

End Main.

(** ** The manifest read back *)

Section ReadBack.

Implicit Types (rows : list manifest_row).

(** The reader gives the sixth field of a row as its destination path. *)
Lemma dict_row_sixth (row : list string) :
  Csv.dict_row fieldnames row !! "target_path" = Some (row !! 5%nat).
Proof.
  destruct row as [|a [|b [|c [|d [|e [|f [|g [|h r]]]]]]]]; reflexivity.
Qed.

Lemma column_rows rest rows :
  column (fieldnames :: rest ++ (dict_to_list <$> rows))
    = (column (fieldnames :: rest) ++ paths_read rows)%list.
Proof.
  unfold column. rewrite !read_text_cons, read_text_app.
  cbn [Csv.DictReader].
  rewrite List.filter_app, !fmap_app. f_equal.
  induction rows as [|r rows IH]; [done|].
  cbn [fmap list_fmap]. rewrite read_text_cons.
  cbn [List.filter Csv.nonblank dict_to_list fmap list_fmap].
  cbn [fmap list_fmap] in IH. rewrite IH. done.
Qed.

(** What the run read at its start, then the paths of its rows as they
    are read. *)
Lemma column_written (F0 : option (list (list string))) rows :
  well_formed F0 →
  column (default [] F0 ++ header_for F0 ++ (dict_to_list <$> rows))
    = (prior_paths F0 ++ paths_read rows)%list.
Proof.
  intros [->|[rest ->]]; cbn [default header_for].
  - apply (column_rows [] rows).
  - unfold prior_paths. cbn [default app]. apply column_rows.
Qed.

(** Paths without carriage return are read as they were written. *)
Lemma paths_read_plain rows :
  (∀ r, r ∈ rows → plain (row_target_path r)) →
  paths_read rows = paths_of rows.
Proof.
  intros Hplain. unfold paths_read, paths_of.
  apply list_fmap_ext. intros i r Hr.
  rewrite universal_newlines_plain; [done|].
  by eapply Hplain, list_elem_of_lookup_2.
Qed.

(** A plain path that a manifest with the header holds is read. *)
Lemma held_path_is_read (F0 : option (list (list string))) path :
  well_formed F0 → holds F0 path → plain path → Some path ∈ prior_paths F0.
Proof.
  intros [->|[rest ->]] (row & Hin & Hrow & Hpath) Hplain.
  { by apply elem_of_nil in Hin. }
  cbn [default] in Hin. apply elem_of_cons in Hin as [->|Hin]; [done|].
  unfold prior_paths, column. cbn [default from_option id].
  rewrite read_text_cons. cbn [Csv.DictReader].
  change (Csv.universal_newlines <$> fieldnames) with fieldnames.
  rewrite read_text_nonblank. apply list_elem_of_fmap.
  exists (Csv.dict_row fieldnames (Csv.universal_newlines <$> row)). split.
  - rewrite dict_row_sixth, list_lookup_fmap, Hpath. cbn.
    by rewrite universal_newlines_plain.
  - apply list_elem_of_fmap_2.
    apply (list_elem_of_fmap_2 (fmap Csv.universal_newlines)).
    apply list_elem_of_In, filter_In. split; [by apply list_elem_of_In|].
    by destruct row.
Qed.

End ReadBack.

(** ** The dedup set *)

Section DedupSet.

Variable w : world.

Lemma monotone_bind {A B} (m : M A) (f : A → M B) :
  monotone m → (∀ a, monotone (f a)) → monotone (bind m f).
Proof.
  intros Hm Hf s. unfold bind. specialize (Hm s).
  destruct (m s) as [[a|e] s']; cbn in Hm; [|done].
  etrans; [done|apply Hf].
Qed.

Lemma monotone_same {A} (m : M A) : (∀ s, (m s).2 = s) → monotone m.
Proof. intros Hm s. by rewrite Hm. Qed.

Lemma monotone_for_each {A} (l : list A) (body : A → M unit) :
  (∀ x, monotone (body x)) → monotone (for_each l body).
Proof.
  intros Hbody. induction l as [|x l IH]; [by apply monotone_same|].
  cbn [for_each]. by apply monotone_bind.
Qed.

Lemma monotone_books {A} (m : M A) :
  (∀ s, bk_set (books_of s) ⊆ bk_set (books_of (m s).2)) → monotone m.
Proof. intros H s. apply H. Qed.

Lemma monotone_quiet {A} (m : M A) :
  (∀ s, books_of (m s).2 = books_of s) → monotone m.
Proof. intros Hm. apply monotone_books. intros s. by rewrite Hm. Qed.

Lemma monotone_cases {A} (m : M A) (f : books → books) :
  (∀ b, bk_set b ⊆ bk_set (f b)) →
  (∀ s, (m s).1 = Raise Interrupted ∧ books_of (m s).2 = books_of s ∨
        (∀ a, (m s).1 = Ok a) ∧ books_of (m s).2 = f (books_of s)) →
  monotone m.
Proof.
  intros Hf Hm. apply monotone_books. intros s.
  destruct (Hm s) as [[_ ->]|[_ ->]]; [done|apply Hf].
Qed.

Lemma monotone_process_image project img :
  monotone (process_image w project img).
Proof.
  apply monotone_books. intros s.
  pose proof (image_step_books w project img s _ _
                (process_image_step w project img s)) as Hstep.
  cbn zeta in Hstep.
  destruct Hstep as [(_ & _ & ->)|(_ & [(_ & [-> | ->])|[(_ & ->)| ->]])];
    cbn; set_solver.
Qed.

Lemma monotone_tick : monotone tick.
Proof. intros s. unfold tick. by repeat case_match. Qed.

Lemma monotone_ingest : monotone (ingest w).
Proof.
  unfold ingest, fetch_projects, open_writer, process_project.
  repeat first
    [ apply monotone_process_image
    | apply monotone_tick
    | apply monotone_bind; [|intros ?]
    | apply monotone_for_each; intros ?
    | by apply monotone_same
    | case_decide | case_match ];
    by intros s.
Qed.

Lemma monotone_load_manifest : monotone load_manifest.
Proof.
  unfold load_manifest.
  apply monotone_bind; [by apply monotone_same|]. intros s0.
  destruct (manifest s0); [|by apply monotone_same].
  apply monotone_for_each. intros d. unfold add_target_path, getitem.
  apply monotone_bind; [apply monotone_same; by destruct (d !! _)|].
  intros v.
  apply monotone_books. intros s.
  destruct (existing_files_add_cases v s) as [[_ ->]|[_ ->]];
    cbn; set_solver.
Qed.

Lemma monotone_main : monotone (main w).
Proof.
  unfold main. apply monotone_bind; [apply monotone_load_manifest|].
  intros []. apply monotone_ingest.
Qed.

(** C9: the dedup set never holds more than the paths loaded from the
    manifest and the paths of the rows written so far, so a path enters
    it only after its row is written; once the loading is over (a call
    is in the trace) it holds all loaded paths, and it is the loaded
    paths and the paths of the rows written, but for the row just
    written when the process is killed before the add; whenever the run
    returns or raises after the loading the two sets are equal; and no
    part of the run removes a path. *)
Theorem dedup_set_tracks_manifest (F0 : option (list (list string)))
    (k : option nat) :
  let r := (main w (start F0 k)).1 in
  let s := (main w (start F0 k)).2 in
  let L : gset (option string) := list_to_set (prior_paths F0) in
  existing_files s ⊆ L ∪ list_to_set (paths_of (appended (trace s))) ∧
  (trace s ≠ [] →
     L ⊆ existing_files s ∧
     (existing_files s = L ∪ list_to_set (paths_of (appended (trace s))) ∨
      ∃ rows row, appended (trace s) = (rows ++ [row])%list ∧
                  existing_files s = L ∪ list_to_set (paths_of rows))) ∧
  (r ≠ Raise Interrupted → r ≠ Raise (KeyError "target_path") →
     existing_files s = L ∪ list_to_set (paths_of (appended (trace s)))) ∧
  (∀ s0, existing_files s0 ⊆ existing_files (main w s0).2).
Proof.
  intros r s L.
  split; [|split; [|split]].
  - destruct (run_ends_sound F0 _ _ (main_books w F0 k)) as [Hs|Hl].
    + apply Hs.
    + destruct Hl as (Hsub & _). cbn in Hsub. fold s L in Hsub. set_solver.
  - intros Htr. pose proof (main_after_loading w F0 k Htr) as H.
    fold s r L in H.
    assert (sound L F0 (books_of s)) as Hs.
    { destruct r as [[]|e]; [|apply H].
      by apply (closed_stopped L F0 Interrupted). }
    split; [apply Hs|]. apply Hs.
  - intros Hr1 Hr2. pose proof (main_books w F0 k) as H. fold s r L in H.
    destruct r as [[]|e]; cbn in H.
    + apply H.
    + destruct H as [[_ [-> | ->]]|[_ H]]; [done|done|].
      apply H. by intros ->.
  - apply monotone_main.
Qed.

End DedupSet.

Lemma dedup_set_tracks_manifest_witness :
  let s := (main demo (start None None)).2 in
  let s9 := (main demo (start None (Some 8))).2 in
  existing_files s = ∅ ∪ list_to_set (paths_of (appended (trace s))) ∧
  ∅ ⊆ existing_files s9.
Proof.
  split.
  - destruct (dedup_set_tracks_manifest demo None None) as (_ & _ & H & _).
    apply H; vm_compute; discriminate.
  - destruct (dedup_set_tracks_manifest demo None (Some 8)) as (_ & H & _).
    apply H. vm_compute. discriminate.
Defined.

(** ** The order of registration and manifest row *)

Section Order.

Variable w : world.

(** C6, as the code has it: for every record the calls are, in this
    order, the directory, the registration, the row, the optional
    download, up to the first that fails, and no other call; the row is
    written only after the registration succeeded, and it is written
    whenever the registration succeeded and the process was not killed,
    before the loop goes on; the row goes to the file object, and all
    that was written is in the manifest file when [f_out] is closed after
    the loop. *)
Theorem row_after_registration project img s :
  let r := (process_image w project img s).1 in
  let s' := (process_image w project img s).2 in
  let row := row_of w project img in
  let registration_ok :=
    command_ok w (trace s ++ [mkdir_of w project img])
      (addurl_of w project img) = true in
  (∃ evs,
     trace s' = (trace s ++ evs)%list ∧
     evs `prefix_of` [mkdir_of w project img; addurl_of w project img;
                      WriteRow row; get_of project img] ∧
     f_out s' = (f_out s ++ if bool_decide (WriteRow row ∈ evs)
                            then [dict_to_list row] else [])%list ∧
     (WriteRow row ∈ evs → registration_ok) ∧
     (addurl_of w project img ∈ evs → registration_ok →
        r ≠ Raise Interrupted → WriteRow row ∈ evs) ∧
     (r = Ok tt → Some (str (target_of project img)) ∉ existing_files s →
        WriteRow row ∈ evs)) ∧
  (kill_after s ≠ Some O →
     manifest (close s).2 = Some (file_view s) ∧ f_out (close s).2 = []).
Proof.
  intros r s' row ok.
  pose proof (process_image_step w project img s) as Hstep.
  fold r s' in Hstep.
  split.
  - destruct Hstep as [Hin|s' evs Hin Hevs (HX & HF & HB & HT)
      |s' p Hin (HX & HF & HB & HT)|s' Hin Hok (HX & HF & HB & HT)
      |s' Hin Hok (HX & HF & HB & HT)
      |s' r evs Hin Hok Hevs (HX & HF & HB & HT)].
    + exists []. rewrite !app_nil_r.
      repeat split; try done; try (by apply prefix_nil);
        try (by intros ?%elem_of_nil).
    + exists evs. set_unfold in Hevs.
      destruct Hevs as [->|[->|[->|[]]]];
        (split; [done|]); (split; [by eexists|]);
        rewrite bool_decide_false
          by (unfold mkdir_of, addurl_of; set_solver);
        rewrite ?app_nil_r; repeat split; try done;
        unfold mkdir_of, addurl_of; set_solver.
    + eexists. split; [done|]. split; [by eexists|].
      rewrite bool_decide_false by (unfold mkdir_of; set_solver).
      rewrite ?app_nil_r; repeat split; try done;
        unfold mkdir_of, addurl_of; set_solver.
    + eexists. split; [done|]. split; [by eexists|].
      rewrite bool_decide_false
        by (unfold mkdir_of, addurl_of; set_solver).
      rewrite ?app_nil_r; repeat split; try done;
        unfold mkdir_of, addurl_of, ok; try set_solver.
      intros _ Hok'. congruence.
    + eexists. split; [done|]. split; [by eexists|].
      rewrite bool_decide_true by set_solver.
      repeat split; try done; set_solver.
    + eexists. split; [done|].
      split.
      { destruct Hevs as [[-> _]|(-> & _)]; by eexists. }
      rewrite bool_decide_true by set_solver.
      repeat split; try done; set_solver.
  - intros Hk. unfold close, bind. rewrite (tick_alive _ Hk). done.
Qed.

End Order.

Lemma row_after_registration_witness :
  let s := set_f_out [fieldnames] (start (Some []) None) in
  manifest (close s).2 = Some [fieldnames] ∧ f_out (close s).2 = [].
Proof.
  intros s.
  destruct (row_after_registration demo "loris" img_a s) as (_ & H).
  apply H. vm_compute. discriminate.
Defined.

(** C6 as stated fails: nothing makes the row durable before the loop
    goes on to the next record.  The rows of the example are far smaller
    than what the file object keeps before it passes anything on: after
    the record is processed its row is not in the manifest file, and a
    process killed while a later record is processed leaves a completed
    registration without its row in the file. *)
Lemma row_is_not_flushed_before_next_record :
  ¬ (∀ w project img s,
       (process_image w project img s).1 = Ok tt →
       Some (str (target_of project img)) ∉ existing_files s →
       (written_bytes (process_image w project img s).2 <? chunk_size)%nat
         = true →
       dict_to_list (row_of w project img)
         ∈ default [] (manifest (process_image w project img s).2)) ∧
  (let s := (main demo (start None (Some 10))).2 in
   (main demo (start None (Some 10))).1 = Raise Interrupted ∧
   registered (trace s)
     = [(API_BASE demo +:+ Link img_a, str (target_of "loris" img_a))] ∧
   mkdir_of demo "loris" img_c ∈ trace s ∧
   f_out s = [fieldnames; dict_to_list (row_of demo "loris" img_a)] ∧
   written_bytes s = 219%nat ∧
   manifest s = Some []).
Proof.
  split.
  - intros H.
    specialize (H demo "loris" img_a
                  (set_f_out [fieldnames] (start (Some []) None))).
    cbn zeta in H.
    assert (∀ x : list string, x ∈ @nil (list string) → False) as Hnil
      by (intros x Hx; inversion Hx).
    apply (Hnil (dict_to_list (row_of demo "loris" img_a))).
    apply H; [by vm_compute|set_solver|by vm_compute].
  - cbn zeta. split; [by vm_compute|]. split; [by vm_compute|].
    split; [|split; [by vm_compute|split; by vm_compute]].
    apply (bool_decide_unpack _). by vm_compute.
Qed.

Lemma empty_project_is_skipped_witness :
  process_project demo "pilot" (start None None)
    = (Ok tt, called (HttpGet (images_url demo "pilot")) (start None None)).
Proof.
  apply (empty_project_is_skipped demo "pilot" [] (start None None)).
  - reflexivity.
  - discriminate.
Defined.

Lemma missing_key_is_empty_witness :
  ingest demo_without_keys (start None None)
    = (Raise (RuntimeError "No projects returned by API"),
       called (HttpGet (API_BASE demo_without_keys +:+ "/projects"))
         (start None None)) ∧
  process_project demo_without_images_key "loris" (start None None)
    = (Ok tt,
       called (HttpGet (images_url demo_without_images_key "loris"))
         (start None None)) ∧
  (main demo_without_images_key (start None None)).1 = Ok tt.
Proof.
  split; [|split].
  - destruct (missing_key_is_empty demo_without_keys (start None None))
      as [H _].
    destruct (H eq_refl) as [H1 _]. apply H1. discriminate.
  - destruct (missing_key_is_empty demo_without_images_key (start None None))
      as [_ H].
    destruct (H "loris" eq_refl) as [H1 _]. apply H1. discriminate.
  - by vm_compute.
Defined.


(** ** A second run *)

Section Coverage.

Variable w : world.

Lemma monotone_triple {A} (m : M A) (P : books → Prop) :
  monotone m →
  (∀ b b', P b → bk_set b ⊆ bk_set b' → P b') →
  triple P m (λ _, P) (λ _ _, True).
Proof.
  intros Hm HP s Hs. specialize (Hm s).
  destruct (m s) as [[a|e] s']; [|done]. by apply (HP (books_of s)).
Qed.

Lemma http_get_result {A} url (reply : response A) s body :
  (http_get url reply s).1 = Ok body → reply = HttpJson body.
Proof.
  unfold http_get, bind.
  destruct (tick_cases s) as [->|(s' & -> & _)]; [done|].
  destruct reply; cbn; congruence.
Qed.

Lemma fetch_projects_result s names :
  (fetch_projects w s).1 = Ok names → names = project_names w.
Proof.
  unfold fetch_projects, bind, project_names.
  pose proof (http_get_result (API_BASE w +:+ "/projects")
                (get_projects w) s) as Hget.
  destruct (http_get _ _ s) as [[body|e] s']; [|done].
  rewrite (Hget body eq_refl). cbn. case_decide; cbn; congruence.
Qed.

(** A record that was processed has its path in the dedup set. *)
Lemma process_image_covers project img s :
  (process_image w project img s).1 = Ok tt →
  Some (str (target_of project img))
    ∈ existing_files (process_image w project img s).2.
Proof.
  intros Hr.
  pose proof (image_step_books w project img s _ _
                (process_image_step w project img s)) as Hstep.
  cbn zeta in Hstep. rewrite Hr in Hstep.
  change (existing_files (process_image w project img s).2)
    with (bk_set (books_of (process_image w project img s).2)).
  destruct Hstep as [(_ & Hin & ->)|(_ & [(? & _)|[(? & _)| ->]])];
    [done|done|done|]. cbn. set_solver.
Qed.

Lemma process_images_cover project (l : list image) :
  triple (λ _, True) (for_each l (process_image w project))
    (λ _ b, ∀ img, img ∈ l → Some (str (target_of project img)) ∈ bk_set b)
    (λ _ _, True).
Proof.
  eapply triple_conseq.
  - apply (triple_for_each
      (λ seen b, ∀ img, img ∈ seen →
                   Some (str (target_of project img)) ∈ bk_set b)
      (λ _ _, True)).
    intros seen img rest _ s Hs.
    pose proof (process_image_covers project img s) as Hcov.
    pose proof (monotone_process_image w project img s) as Hmono.
    destruct (process_image w project img s) as [[[]|e] s']; [|done].
    cbn in Hcov, Hmono. intros img'. rewrite elem_of_app, list_elem_of_singleton.
    intros [Hin| ->]; [|by apply Hcov].
    apply Hmono. by apply Hs.
  - intros b _ img Hin. by apply elem_of_nil in Hin.
  - done.
  - done.
Qed.

Lemma process_project_covers project seen :
  triple (covered w seen) (process_project w project)
    (λ _, covered w (seen ++ [project])) (λ _ _, True).
Proof.
  intros s Hs. unfold process_project, bind.
  pose proof (http_get_result (images_url w project)
                (get_images w (images_url w project)) s) as Hget.
  pose proof (http_get_books (images_url w project)
                (get_images w (images_url w project)) s) as Hbooks.
  destruct (http_get _ _ s) as [[body|e] s1]; [|done].
  cbn in Hbooks. specialize (Hget body eq_refl).
  pose proof (process_images_cover project (default [] (Images body)) s1 I)
    as Hloop.
  pose proof (monotone_for_each (default [] (Images body))
                (process_image w project)
                (monotone_process_image w project) s1) as Hmono.
  destruct (for_each _ _ s1) as [[[]|e] s2]; [|done].
  cbn in Hmono. intros p img. rewrite elem_of_app, list_elem_of_singleton.
  intros [Hp| ->] Himg.
  - apply Hmono.
    change (existing_files s1) with (bk_set (books_of s1)). rewrite Hbooks.
    by apply Hs.
  - apply Hloop. unfold images_of in Himg. by rewrite Hget in Himg.
Qed.

Lemma covered_upward ps b b' :
  covered w ps b → bk_set b ⊆ bk_set b' → covered w ps b'.
Proof. intros Hc Hsub p img Hp Himg. apply Hsub. by apply Hc. Qed.

(** A run that returns has gone through every record of every project. *)
Lemma ingest_covers :
  triple (λ _, True) (ingest w)
    (λ _, covered w (project_names w)) (λ _ _, True).
Proof.
  intros s _. unfold ingest, bind.
  pose proof (fetch_projects_result s) as Hnames.
  destruct (fetch_projects w s) as [[names|e] s1]; [|done].
  rewrite (Hnames names eq_refl). clear Hnames.
  destruct (open_writer w s1) as [[[]|e] s2]; [|done].
  pose proof (triple_for_each (covered w) (λ _ _, True) (project_names w)
                (process_project w)
                (λ seen p _ _, process_project_covers p seen) s2) as Hloop.
  destruct (for_each _ _ s2) as [[[]|e] s3]; [|done].
  assert (covered w (project_names w) (books_of s3)) as Hcov.
  { apply Hloop. intros p img Hp. by apply elem_of_nil in Hp. }
  pose proof (monotone_triple (close ;; subprocess_run w DataladSave)
                (covered w (project_names w))) as Hrest.
  unfold bind in Hrest at 1.
  eapply Hrest; [|apply covered_upward|done].
  apply monotone_bind.
  - apply monotone_books. intros s0.
    destruct (close_cases s0) as [[_ ->]|[_ ->]]; done.
  - intros _. apply monotone_quiet. intros s0.
    by apply subprocess_run_books.
Qed.

End Coverage.

(** ** Where the rows come from *)

Section Provenance.

Variables (w : world) (P : manifest_row → Prop).

Hypothesis remote_rows :
  ∀ project img, project ∈ project_names w → img ∈ images_of w project →
    P (row_of w project img).

Let inv (b : books) : Prop := Forall P (bk_rows b).

Lemma triple_rows_kept {A} (m : M A) :
  (∀ s, bk_rows (books_of (m s).2) = bk_rows (books_of s)) →
  triple inv m (λ _, inv) (λ _, inv).
Proof.
  intros Hm s Hs. specialize (Hm s).
  destruct (m s) as [[a|e] s']; unfold inv in *; cbn in *; by rewrite Hm.
Qed.

Lemma process_image_rows project img :
  P (row_of w project img) →
  triple inv (process_image w project img) (λ _, inv) (λ _, inv).
Proof.
  intros HP s Hs.
  pose proof (image_step_books w project img s _ _
                (process_image_step w project img s)) as Hstep.
  cbn zeta in Hstep.
  assert (inv (books_of (process_image w project img s).2)) as H.
  { destruct Hstep as [(_ & _ & ->)|(_ & [(_ & [-> | ->])|[(_ & ->)| ->]])];
      unfold inv; cbn; try done; apply Forall_app; split; try done;
      by constructor. }
  by destruct (process_image w project img s) as [[[]|e] s'].
Qed.

Lemma process_project_rows project :
  project ∈ project_names w →
  triple inv (process_project w project) (λ _, inv) (λ _, inv).
Proof.
  intros Hp s Hs. unfold process_project, bind.
  pose proof (http_get_result (images_url w project)
                (get_images w (images_url w project)) s) as Hget.
  pose proof (http_get_books (images_url w project)
                (get_images w (images_url w project)) s) as Hbooks.
  destruct (http_get _ _ s) as [[body|e] s1]; cbn [snd] in Hbooks;
    lazy beta iota; [|by rewrite Hbooks].
  specialize (Hget body eq_refl).
  apply (triple_for_each (λ _, inv) (λ _, inv)
           (default [] (Images body)) (process_image w project));
    [|by rewrite Hbooks].
  intros seen img rest Hl. apply process_image_rows.
  apply remote_rows; [done|]. unfold images_of. rewrite Hget, Hl.
  set_solver.
Qed.

Lemma open_writer_rows s :
  bk_rows (books_of (open_writer w s).2) = bk_rows (books_of s).
Proof.
  unfold open_writer, bind, get_state.
  pose proof (mkdir_books w (DATASET_DIR w) s) as Hm.
  destruct (mkdir w (DATASET_DIR w) s) as [[[]|e] s1];
    cbn [snd] in Hm |- *; [|by rewrite Hm].
  rewrite <- Hm.
  destruct (open_append_cases s1) as [[Hr Hb]|[Hr Hb]];
    destruct (open_append s1) as [r s2]; cbn [fst snd] in Hr, Hb; subst r;
    [cbn [snd]; by rewrite Hb|].
  replace (bk_rows (books_of s1)) with (bk_rows (books_of s2))
    by (by rewrite Hb).
  destruct (negb _); [|done].
  destruct (writeheader_cases s2) as [[_ Hh]|[_ Hh]]; by rewrite Hh.
Qed.

Lemma ingest_rows : triple inv (ingest w) (λ _, inv) (λ _, inv).
Proof.
  unfold ingest.
  eapply (triple_bind _ _ _ (λ names b, inv b ∧ names = project_names w)).
  { intros s Hs. pose proof (fetch_projects_result w s) as Hnames.
    unfold fetch_projects, bind in *.
    pose proof (http_get_books (API_BASE w +:+ "/projects")
                  (get_projects w) s) as Hbooks.
    destruct (http_get _ _ s) as [[body|e] s1]; cbn [fst snd] in *;
      lazy beta iota zeta; [|by rewrite Hbooks].
    case_decide; lazy beta iota; cbn [fst] in Hnames; unfold raise, ret;
      [by rewrite Hbooks|].
    split; [by rewrite Hbooks|]. by apply Hnames. }
  intros names. apply triple_pure. intros ->.
  eapply (triple_bind _ _ _ (λ _, inv)).
  { apply triple_rows_kept, open_writer_rows. }
  intros []. eapply (triple_bind _ _ _ (λ _, inv)).
  { apply (triple_for_each (λ _, inv)).
    intros seen project rest Hl. apply process_project_rows.
    rewrite Hl. set_solver. }
  intros []. eapply (triple_bind _ _ _ (λ _, inv)).
  { apply triple_rows_kept. intros s.
    destruct (close_cases s) as [[_ ->]|[_ ->]]; done. }
  intros []. apply triple_rows_kept. intros s.
  by rewrite subprocess_run_books.
Qed.

(** Every row of a run is the row of a record of the remote. *)
Lemma main_rows (F0 : option (list (list string))) (k : option nat) :
  Forall P (appended (trace (main w (start F0 k)).2)).
Proof.
  unfold main, bind.
  pose proof (load_manifest_trace (start F0 k)) as Htr.
  destruct (load_manifest (start F0 k)) as [[[]|e] s1]; cbn in Htr.
  - assert (inv (books_of s1)) as Hs1.
    { unfold inv. cbn. rewrite Htr. constructor. }
    pose proof (ingest_rows s1 Hs1) as H.
    by destruct (ingest w s1) as [[[]|e] s2].
  - cbn. rewrite Htr. constructor.
Qed.

End Provenance.

(** The paths of the rows of a run, for a remote without carriage
    return, are read back as they were written. *)
Lemma rows_read_back (w : world) (F0 : option (list (list string)))
    (k : option nat) :
  plain_remote w →
  paths_read (appended (trace (main w (start F0 k)).2))
  = paths_of (appended (trace (main w (start F0 k)).2)).
Proof.
  intros Hplain. apply paths_read_plain. intros r Hr.
  pose proof (main_rows w (λ r, plain (row_target_path r)) Hplain F0 k) as H.
  by apply (proj1 (Forall_forall _ _) H).
Qed.

(** A remote is without carriage return when the check of its records
    says so. *)
Lemma plain_remote_check (w : world) :
  forallb (λ project,
             forallb (λ img,
                        negb (Str.contains "013"
                                (str (target_of project img))))
               (images_of w project))
    (project_names w) = true →
  plain_remote w.
Proof.
  intros Hall project img Hp Himg.
  apply list_elem_of_In in Hp, Himg.
  pose proof (proj1 (forallb_forall _ _) Hall project Hp) as Himgs.
  pose proof (proj1 (forallb_forall _ _) Himgs img Himg) as H.
  by apply negb_true_iff in H.
Qed.

(** ** Uniqueness of the destination paths *)

Section Uniqueness.

Variables (w : world) (F0 : option (list (list string))) (k : option nat).


End Uniqueness.



Section SecondRun.

Variables (w : world) (X : gset (option string)) (F1 : list (list string)).

Hypothesis all_known :
  ∀ project img, project ∈ project_names w → img ∈ images_of w project →
    Some (str (target_of project img)) ∈ X.

(** A record whose path is in the dedup set is skipped: no call, no row,
    the state is as before. *)
Lemma process_image_skip project img s :
  Some (str (target_of project img)) ∈ existing_files s →
  process_image w project img s = (Ok tt, s).
Proof.
  intros Hin. rewrite process_image_unfold. unfold bind, get_state.
  by rewrite bool_decide_true.
Qed.

Lemma process_images_skip project (l : list image) s :
  (∀ img, img ∈ l → Some (str (target_of project img)) ∈ existing_files s) →
  for_each l (process_image w project) s = (Ok tt, s).
Proof.
  induction l as [|img l IH]; intros Hl; [done|].
  cbn [for_each]. unfold bind.
  rewrite process_image_skip by (apply Hl; set_solver).
  apply IH. intros img' Hin. apply Hl. set_solver.
Qed.

Lemma process_project_idle project s :
  project ∈ project_names w → existing_files s = X →
  books_of (process_project w project s).2 = books_of s.
Proof.
  intros Hp HX. unfold process_project, bind.
  pose proof (http_get_result (images_url w project)
                (get_images w (images_url w project)) s) as Hget.
  pose proof (http_get_books (images_url w project)
                (get_images w (images_url w project)) s) as Hbooks.
  destruct (http_get _ _ s) as [[body|e] s1]; [|done].
  cbn in Hbooks. specialize (Hget body eq_refl).
  rewrite process_images_skip; [done|].
  intros img Himg.
  change (existing_files s1) with (bk_set (books_of s1)).
  rewrite Hbooks. cbn. rewrite HX. apply (all_known project); [done|].
  unfold images_of. by rewrite Hget.
Qed.

Lemma ready_opened b : ready X (Some F1) b → ready X (Some F1) (opened b).
Proof. intros (? & Hf & ?). repeat split; try tauto. cbn. by rewrite Hf. Qed.

Lemma ready_flushed b : ready X (Some F1) b → ready X (Some F1) (flushed b).
Proof.
  intros (? & Hf & Ho & ?). repeat split; try tauto.
  cbn. by rewrite Hf, Ho, app_nil_r.
Qed.

(** With every record known, the run goes from ready books to ready books:
    nothing is registered and nothing is written. *)
Lemma ingest_idle :
  triple (ready X (Some F1)) (ingest w)
    (λ _, ready X (Some F1)) (λ _, ready X (Some F1)).
Proof.
  unfold ingest.
  eapply (triple_bind _ _ _
            (λ names b, ready X (Some F1) b ∧ names = project_names w)).
  { intros s Hs. pose proof (fetch_projects_result w s) as Hnames.
    pose proof (fetch_projects_triple w X (Some F1) s Hs) as Hfetch.
    unfold fetch_projects, bind in *.
    pose proof (http_get_books (API_BASE w +:+ "/projects")
                  (get_projects w) s) as Hbooks.
    destruct (http_get _ _ s) as [[body|e] s1]; cbn in Hbooks;
      [|by rewrite Hbooks].
    cbn in Hnames, Hfetch |- *.
    case_decide; cbn in *; [by rewrite Hbooks|].
    split; [done|]. by apply Hnames. }
  intros names. apply triple_pure. intros ->.
  eapply (triple_bind _ _ _ (λ _, ready X (Some F1))).
  { unfold open_writer.
    eapply (triple_bind _ _ _
              (λ s b, ready X (Some F1) b ∧ manifest s = Some F1)).
    { apply triple_get_state. intros s Hs. split; [done|].
      by destruct Hs as (_ & ? & _). }
    intros s0. apply triple_pure. intros ->.
    rewrite bool_decide_true by eauto. cbn [negb].
    eapply (triple_bind _ _ _ (λ _, ready X (Some F1))).
    { apply triple_quiet. apply mkdir_books. }
    intros []. eapply (triple_bind _ _ _ (λ _, ready X (Some F1))).
    { intros s Hs. destruct (open_append_cases s) as [[Hr Hb]|[Hr Hb]];
        destruct (open_append s) as [r s']; cbn in Hr, Hb; subst r;
        rewrite Hb; [done|by apply ready_opened]. }
    intros []. by apply triple_ret. }
  intros []. eapply (triple_bind _ _ _ (λ _, ready X (Some F1))).
  { apply (triple_for_each (λ _, ready X (Some F1))).
    intros seen project rest Hl s Hs.
    assert (project ∈ project_names w) as Hp by (rewrite Hl; set_solver).
    pose proof (process_project_idle project s Hp) as Hbooks.
    destruct (process_project w project s) as [[[]|e] s'];
      cbn in Hbooks; rewrite Hbooks; try done; by destruct Hs. }
  intros []. eapply (triple_bind _ _ _ (λ _, ready X (Some F1))).
  { intros s Hs. destruct (close_cases s) as [[Hr Hb]|[Hr Hb]];
      destruct (close s) as [r s']; cbn in Hr, Hb; subst r;
      rewrite Hb; [done|by apply ready_flushed]. }
  intros []. apply triple_quiet. intros s. by apply subprocess_run_books.
Qed.

Lemma main_idle k :
  X = list_to_set (prior_paths (Some F1)) →
  let s := (main w (start (Some F1) k)).2 in
  registered (trace s) = [] ∧ appended (trace s) = [] ∧
  writes (trace s) = [] ∧ manifest s = Some F1 ∧ f_out s = [].
Proof.
  intros HX s.
  assert (loading X (Some F1) (books_of s)) as (_ & ? & ? & ? & ? & ?);
    [|done].
  subst s. unfold main, bind.
  pose proof (load_manifest_triple (Some F1) (start (Some F1) k)) as Hload.
  rewrite <- HX in Hload.
  destruct (load_manifest (start (Some F1) k)) as [[[]|e] s1].
  - pose proof (ingest_idle s1 (Hload ltac:(done))) as Hidle.
    assert (ready X (Some F1) (books_of (ingest w s1).2)) as (Hs & Hrest).
    { by destruct (ingest w s1) as [[[]|e] s2]. }
    split; [by rewrite Hs|exact Hrest].
  - apply Hload. done.
Qed.

End SecondRun.

Section TwoRuns.

Variables (w1 w2 : world) (F0 : option (list (list string))).

Lemma same_remote_names :
  same_remote w1 w2 → project_names w2 = project_names w1.
Proof. intros (_ & Hp & _). unfold project_names. by rewrite Hp. Qed.

Lemma same_remote_images project :
  same_remote w1 w2 → images_of w2 project = images_of w1 project.
Proof.
  intros (Hb & _ & Hi). unfold images_of, images_url. by rewrite Hb, Hi.
Qed.


End TwoRuns.



(** The run of the demo remote: [img_b] has the destination path of
    [img_a] under another URL and is not registered. *)
Example demo_registers_each_path_once :
  registered (trace (main demo (start None None)).2)
    = [("https://loris.example/api/v0.0.3/candidates/123/V1/images/a.mnc",
        "data/loris/sub-123/ses-V1/anat/sub-123_ses-V1_T2w.mnc");
       ("https://loris.example/api/v0.0.3/candidates/7/V2/images/c.mnc",
        "data/loris/sub-7/ses-V2/misc/sub-7_ses-V2_localizer.mnc")] ∧
  manifest (main demo (start None None)).2
    = Some [fieldnames;
            ["loris"; "123"; "V1"; "sub-123_ses-V1_T2w.mnc"; "anat";
             "data/loris/sub-123/ses-V1/anat/sub-123_ses-V1_T2w.mnc";
             "https://loris.example/api/v0.0.3/candidates/123/V1/images/a.mnc"];
            ["loris"; "7"; "V2"; "sub-7_ses-V2_localizer.mnc"; "misc";
             "data/loris/sub-7/ses-V2/misc/sub-7_ses-V2_localizer.mnc";
             "https://loris.example/api/v0.0.3/candidates/7/V2/images/c.mnc"]].
Proof. by vm_compute. Qed.

(** * Further properties of the script *)

(** ** The manifest across the run *)

Section ManifestFile.

Variables (w : world) (F0 : option (list (list string))) (k : option nat).

(** X1: at any point of a run, what has been written to the manifest is
    nothing, or the header, only when there was no manifest file, followed
    by the records of the rows in the order of their writing: the header is
    written at most once and before every row.  When the run returns the
    file holds what it held, then this, and the file object is empty. *)
Theorem header_once_then_rows :
  let r := (main w (start F0 k)).1 in
  let s := (main w (start F0 k)).2 in
  (writes (trace s) = [] ∧ appended (trace s) = [] ∨
   writes (trace s)
     = (header_for F0 ++ (dict_to_list <$> appended (trace s)))%list) ∧
  file_view s = (default [] F0 ++ writes (trace s))%list ∧
  (r = Ok tt →
     manifest s
       = Some (default [] F0 ++ header_for F0
                 ++ (dict_to_list <$> appended (trace s)))%list ∧
     f_out s = []).
Proof.
  intros r s. pose proof (main_books w F0 k) as Hends. fold r s in Hends.
  split; [|split].
  - destruct (run_ends_sound F0 _ _ Hends) as [Hs|Hl].
    + apply Hs.
    + destruct Hl as (_ & _ & _ & Hrows & _ & Hw). by left.
  - destruct (run_ends_sound F0 _ _ Hends) as [Hs|Hl].
    + apply Hs.
    + destruct Hl as (_ & Hf & Ho & _ & _ & Hw). cbn in Hf, Ho, Hw.
      unfold file_view. by rewrite Hf, Ho, Hw.
  - intros Hr. rewrite Hr in Hends. destruct Hends as (_ & Hf & Ho & Hw).
    cbn in Hf, Ho, Hw. by rewrite Hf, Hw.
Qed.

(** X2: the rows written are the rows of registrations that were asked,
    in the order of the registrations; when the run returns there are as
    many rows as registrations, each with the URL and the path that were
    registered. *)
Theorem rows_are_registrations :
  let r := (main w (start F0 k)).1 in
  let s := (main w (start F0 k)).2 in
  (registration_of <$> appended (trace s)) `prefix_of` registered (trace s) ∧
  (r = Ok tt →
     registered (trace s) = registration_of <$> appended (trace s) ∧
     List.length (appended (trace s)) = List.length (registered (trace s))).
Proof.
  intros r s. pose proof (main_books w F0 k) as Hends. fold r s in Hends.
  split.
  - destruct (run_ends_sound F0 _ _ Hends) as [Hs|Hl].
    + apply Hs.
    + destruct Hl as (_ & _ & _ & Hrows & Hregs & _).
      cbn in Hrows, Hregs. by rewrite Hrows, Hregs.
  - intros Hr. rewrite Hr in Hends. destruct Hends as ([_ _ _ Hregs] & _).
    cbn in Hregs. split; [done|]. by rewrite Hregs, length_fmap.
Qed.


End ManifestFile.


Lemma header_once_then_rows_witness :
  let s := (main demo (start None None)).2 in
  manifest s
    = Some ([] ++ [fieldnames] ++ (dict_to_list <$> appended (trace s)))%list ∧
  f_out s = [].
Proof.
  intros s.
  destruct (header_once_then_rows demo None None) as (_ & _ & H).
  apply H. by vm_compute.
Defined.

Lemma rows_are_registrations_witness :
  let s := (main demo (start None None)).2 in
  registered (trace s) = registration_of <$> appended (trace s) ∧
  List.length (appended (trace s)) = List.length (registered (trace s)).
Proof.
  intros s.
  destruct (rows_are_registrations demo None None) as (_ & H).
  apply H. by vm_compute.
Defined.

(** ** The calls of a run *)

Section Calls.

Variable w : world.

Implicit Types (s : state) (ev : event).

Lemma tick_or_not s :
  tick s = (Raise Interrupted, s) ∧ kill_after s = Some O ∨
  tick s = (Ok tt, ticked s) ∧ kill_after s ≠ Some O.
Proof.
  destruct (decide (kill_after s = Some O)) as [Hk|Hk].
  - left. by rewrite (tick_dead _ Hk).
  - right. by rewrite (tick_alive _ Hk).
Qed.

Lemma mkdir_cases p s :
  mkdir w p s = (Raise Interrupted, s) ∧ kill_after s = Some O ∨
  mkdir w p s
    = (if command_ok w (trace s) (Mkdir (str p)) then Ok tt
       else Raise (OSError (str p)), called (Mkdir (str p)) s).
Proof.
  unfold mkdir, bind, get_state.
  destruct (tick_or_not s) as [[-> ?]|[-> _]]; [by left|right].
  cbn. by destruct (command_ok _ _ _).
Qed.

Lemma subprocess_run_cases cmd s :
  subprocess_run w cmd s = (Raise Interrupted, s) ∧ kill_after s = Some O ∨
  subprocess_run w cmd s
    = (if command_ok w (trace s) cmd then Ok tt
       else Raise (CalledProcessError cmd), called cmd s).
Proof.
  unfold subprocess_run, bind, get_state.
  destruct (tick_or_not s) as [[-> ?]|[-> _]]; [by left|right].
  cbn. by destruct (command_ok _ _ _).
Qed.

Lemma http_get_cases {A} url (reply : response A) s :
  http_get url reply s = (Raise Interrupted, s) ∧ kill_after s = Some O ∨
  http_get url reply s
    = (match reply with
       | HttpFail => Raise (HTTPError url)
       | HttpJson body => Ok body
       end, called (HttpGet url) s).
Proof.
  destruct (decide (kill_after s = Some O)) as [Hk|Hk].
  - left. by rewrite (http_get_dead _ _ _ Hk).
  - right. rewrite (http_get_alive _ _ _ Hk). by destruct reply.
Qed.

Lemma writerow_cases r s :
  writerow r s = (Raise Interrupted, s) ∧ kill_after s = Some O ∨
  writerow r s
    = (Ok tt, set_f_out (f_out s ++ [dict_to_list r]) (called (WriteRow r) s)).
Proof.
  unfold writerow, bind.
  destruct (tick_or_not s) as [[-> ?]|[-> _]]; [by left|by right].
Qed.

Lemma writeheader_or_not s :
  writeheader s = (Raise Interrupted, s) ∧ kill_after s = Some O ∨
  writeheader s
    = (Ok tt, set_f_out (f_out s ++ [fieldnames]) (called WriteHeader s)).
Proof.
  unfold writeheader, bind.
  destruct (tick_or_not s) as [[-> ?]|[-> _]]; [by left|by right].
Qed.

Lemma existing_files_add_or_not v s :
  existing_files_add v s = (Raise Interrupted, s) ∧ kill_after s = Some O ∨
  existing_files_add v s
    = (Ok tt, set_existing_files ({[v]} ∪ existing_files s) (ticked s)).
Proof.
  unfold existing_files_add, bind.
  destruct (tick_or_not s) as [[-> ?]|[-> _]]; [by left|by right].
Qed.

Lemma open_append_or_not s :
  open_append s = (Raise Interrupted, s) ∧ kill_after s = Some O ∨
  open_append s
    = (Ok tt, set_manifest (Some (default [] (manifest s)))
                (called OpenAppend s)).
Proof.
  unfold open_append, bind.
  destruct (tick_or_not s) as [[-> ?]|[-> _]]; [by left|by right].
Qed.

Lemma close_or_not s :
  close s = (Raise Interrupted, s) ∧ kill_after s = Some O ∨
  close s
    = (Ok tt, set_f_out []
                (set_manifest (Some (default [] (manifest s) ++ f_out s)%list)
                   (called Close s))).
Proof.
  unfold close, bind.
  destruct (tick_or_not s) as [[-> ?]|[-> _]]; [by left|by right].
Qed.

End Calls.

(** ** Exceptions *)

Section FailLoud.

Variable w : world.

Lemma fails_loud_ret {A} (a : A) : fails_loud w (ret a).
Proof. by intros s. Qed.

Lemma fails_loud_bind {A B} (m : M A) (f : A → M B) :
  fails_loud w m → (∀ a, fails_loud w (f a)) → fails_loud w (bind m f).
Proof.
  intros Hm Hf s. unfold bind. specialize (Hm s).
  destruct (m s) as [[a|e] s']; [apply Hf|done].
Qed.

Lemma fails_loud_for_each {A} (l : list A) (body : A → M unit) :
  (∀ x, fails_loud w (body x)) → fails_loud w (for_each l body).
Proof.
  intros Hbody. induction l as [|x l IH]; [apply fails_loud_ret|].
  cbn [for_each]. by apply fails_loud_bind.
Qed.

Lemma fails_loud_tick : fails_loud w tick.
Proof. intros s. by destruct (tick_or_not s) as [[-> ?]|[-> _]]. Qed.

Lemma fails_loud_mkdir p : fails_loud w (mkdir w p).
Proof.
  intros s. destruct (mkdir_cases w p s) as [[-> ?]| ->]; [done|].
  destruct (command_ok _ _ _) eqn:Hok; [done|]. cbn. eauto.
Qed.

Lemma fails_loud_subprocess_run cmd : fails_loud w (subprocess_run w cmd).
Proof.
  intros s. destruct (subprocess_run_cases w cmd s) as [[-> ?]| ->]; [done|].
  destruct (command_ok _ _ _) eqn:Hok; [done|]. cbn. eauto.
Qed.

Lemma fails_loud_http_get {A} url (reply : response A) :
  (reply = HttpFail →
   url = projects_url w ∧ get_projects w = HttpFail ∨
   get_images w url = HttpFail) →
  fails_loud w (http_get url reply).
Proof.
  intros Hfail s. destruct (http_get_cases url reply s) as [[-> ?]| ->]; [done|].
  destruct reply; [|done]. cbn. split; [eauto|]. by apply Hfail.
Qed.

Lemma fails_loud_process_image project img :
  fails_loud w (process_image w project img).
Proof.
  rewrite process_image_unfold.
  apply fails_loud_bind; [by intros s|]. intros s0.
  case_bool_decide; [apply fails_loud_ret|].
  apply fails_loud_bind; [apply fails_loud_mkdir|]. intros _.
  apply fails_loud_bind; [apply fails_loud_subprocess_run|]. intros _.
  apply fails_loud_bind.
  { intros s. by destruct (writerow_cases (row_of w project img) s)
      as [[-> ?]| ->]. }
  intros _. apply fails_loud_bind.
  { intros s. by destruct (existing_files_add_or_not
                             (Some (str (target_of project img))) s)
      as [[-> ?]| ->]. }
  intros _. destruct (args_get w);
    [apply fails_loud_subprocess_run|apply fails_loud_ret].
Qed.

Lemma fails_loud_process_project project :
  fails_loud w (process_project w project).
Proof.
  unfold process_project. apply fails_loud_bind.
  - apply fails_loud_http_get. auto.
  - intros body. apply fails_loud_for_each. intros img.
    apply fails_loud_process_image.
Qed.

Lemma fails_loud_fetch_projects : fails_loud w (fetch_projects w).
Proof.
  intros s. unfold fetch_projects, bind.
  destruct (http_get_cases (API_BASE w +:+ "/projects") (get_projects w) s)
    as [[-> ?]| ->]; [done|].
  destruct (get_projects w) as [|body] eqn:Hp; cbn.
  - split; [eauto|]. by left.
  - case_decide; cbn; [|done].
    split; [done|]. split; [by eexists|]. by exists body.
Qed.

Lemma fails_loud_open_writer : fails_loud w (open_writer w).
Proof.
  unfold open_writer.
  apply fails_loud_bind; [by intros s|]. intros s0.
  apply fails_loud_bind; [apply fails_loud_mkdir|]. intros _.
  apply fails_loud_bind.
  - intros s. by destruct (open_append_or_not s) as [[-> ?]| ->].
  - intros _. destruct (negb _); [|apply fails_loud_ret].
    intros s. by destruct (writeheader_or_not s) as [[-> ?]| ->].
Qed.

Lemma fails_loud_load_manifest : fails_loud w load_manifest.
Proof.
  unfold load_manifest.
  apply fails_loud_bind; [by intros s|]. intros s0.
  destruct (manifest s0); [|apply fails_loud_ret].
  apply fails_loud_for_each. intros d. unfold add_target_path, getitem.
  apply fails_loud_bind.
  - intros s. by destruct (d !! "target_path").
  - intros v s. by destruct (existing_files_add_or_not v s) as [[-> ?]| ->].
Qed.

Lemma fails_loud_main : fails_loud w (main w).
Proof.
  unfold main, ingest.
  apply fails_loud_bind; [apply fails_loud_load_manifest|]. intros _.
  apply fails_loud_bind; [apply fails_loud_fetch_projects|]. intros names.
  apply fails_loud_bind; [apply fails_loud_open_writer|]. intros _.
  apply fails_loud_bind.
  { apply fails_loud_for_each. intros p. apply fails_loud_process_project. }
  intros _. apply fails_loud_bind.
  - intros s. by destruct (close_or_not s) as [[-> ?]| ->].
  - intros _. apply fails_loud_subprocess_run.
Qed.


End FailLoud.


(** ** The shape of the trace *)

Section Shape.

Variable w : world.

Implicit Types (allowed : event → Prop).

Lemma emits_silent {A} allowed (m : M A) :
  (∀ s, trace (m s).2 = trace s) → emits allowed m.
Proof. intros Hm s. exists []. by rewrite Hm, app_nil_r. Qed.

Lemma emits_one {A} allowed (m : M A) ev :
  allowed ev →
  (∀ s, trace (m s).2 = trace s ∨ trace (m s).2 = (trace s ++ [ev])%list) →
  emits allowed m.
Proof.
  intros Hev Hm s. destruct (Hm s) as [-> | ->].
  - exists []. by rewrite app_nil_r.
  - exists [ev]. split; [done|]. by constructor.
Qed.

Lemma emits_bind {A B} allowed (m : M A) (f : A → M B) :
  emits allowed m → (∀ a, emits allowed (f a)) → emits allowed (bind m f).
Proof.
  intros Hm Hf s. unfold bind. destruct (Hm s) as (evs & Ht & Hall).
  destruct (m s) as [[a|e] s']; cbn in Ht; [|by exists evs].
  destruct (Hf a s') as (evs' & Ht' & Hall').
  exists (evs ++ evs')%list. split; [|by apply Forall_app].
  by rewrite Ht', Ht, app_assoc.
Qed.

Lemma emits_for_each {A} allowed (l : list A) (body : A → M unit) :
  (∀ x, emits allowed (body x)) → emits allowed (for_each l body).
Proof.
  intros Hbody. induction l as [|x l IH]; [by apply emits_silent|].
  cbn [for_each]. by apply emits_bind.
Qed.

Lemma emits_mkdir allowed p :
  allowed (Mkdir (str p)) → emits allowed (mkdir w p).
Proof.
  intros Hev. apply (emits_one _ _ _ Hev). intros s.
  destruct (mkdir_cases w p s) as [[-> ?]| ->]; auto.
Qed.

Lemma emits_subprocess_run allowed cmd :
  allowed cmd → emits allowed (subprocess_run w cmd).
Proof.
  intros Hev. apply (emits_one _ _ _ Hev). intros s.
  destruct (subprocess_run_cases w cmd s) as [[-> ?]| ->]; auto.
Qed.

Lemma emits_http_get {A} allowed url (reply : response A) :
  allowed (HttpGet url) → emits allowed (http_get url reply).
Proof.
  intros Hev. apply (emits_one _ _ _ Hev). intros s.
  destruct (http_get_cases url reply s) as [[-> ?]| ->]; auto.
Qed.

Lemma emits_weaken {A} allowed allowed' (m : M A) :
  (∀ ev, allowed ev → allowed' ev) → emits allowed m → emits allowed' m.
Proof.
  intros Hsub Hm s. destruct (Hm s) as (evs & Ht & Hall).
  exists evs. split; [done|]. by eapply Forall_impl.
Qed.

Lemma local_call_loop_event ev : local_call w ev → loop_event w ev.
Proof. by destruct ev. Qed.

Lemma emits_process_image project img :
  emits (local_call w) (process_image w project img).
Proof.
  rewrite process_image_unfold.
  apply emits_bind; [by apply emits_silent|]. intros s0.
  case_bool_decide; [by apply emits_silent|].
  apply emits_bind; [by apply emits_mkdir|]. intros _.
  apply emits_bind; [by apply emits_subprocess_run|]. intros _.
  apply emits_bind.
  { apply (emits_one _ _ (WriteRow (row_of w project img))); [done|].
    intros s. destruct (writerow_cases (row_of w project img) s)
      as [[-> ?]| ->]; auto. }
  intros _. apply emits_bind.
  { apply emits_silent. intros s.
    by destruct (existing_files_add_or_not
                   (Some (str (target_of project img))) s) as [[-> ?]| ->]. }
  intros _. destruct (args_get w) eqn:Hget; [|by apply emits_silent].
  by apply emits_subprocess_run.
Qed.

Lemma emits_process_project project :
  emits (loop_event w) (process_project w project).
Proof.
  unfold process_project. apply emits_bind; [by apply emits_http_get|].
  intros body. apply emits_for_each. intros img.
  apply (emits_weaken _ _ _ local_call_loop_event), emits_process_image.
Qed.

Lemma emits_open_writer : emits (local_call w) (open_writer w).
Proof.
  unfold open_writer.
  apply emits_bind; [by apply emits_silent|]. intros s0.
  apply emits_bind; [by apply emits_mkdir|]. intros _.
  apply emits_bind.
  { apply (emits_one _ _ OpenAppend); [done|]. intros s.
    destruct (open_append_or_not s) as [[-> ?]| ->]; auto. }
  intros _. destruct (negb _); [|by apply emits_silent].
  apply (emits_one _ _ WriteHeader); [done|]. intros s.
  destruct (writeheader_or_not s) as [[-> ?]| ->]; auto.
Qed.

Lemma emits_fetch_projects : emits (loop_event w) (fetch_projects w).
Proof.
  unfold fetch_projects. apply emits_bind; [by apply emits_http_get|].
  intros body. cbn zeta. case_decide; by apply emits_silent.
Qed.

Lemma emits_load_manifest : emits (loop_event w) load_manifest.
Proof. apply emits_silent. apply load_manifest_trace. Qed.

(** The calls of a run: those of the loading, the enumeration and the
    loop, then the close and the save. *)
Lemma main_calls s :
  ∃ evs tail,
    trace (main w s).2 = (trace s ++ evs ++ tail)%list ∧
    Forall (loop_event w) evs ∧
    (tail = [] ∧ (main w s).1 ≠ Ok tt ∨
     tail = [Close] ∧ (main w s).1 = Raise Interrupted ∨
     tail = [Close; DataladSave] ∧
       ((main w s).1 = Ok tt ∨
        (main w s).1 = Raise (CalledProcessError DataladSave))).
Proof.
  pose proof (emits_bind (loop_event w) load_manifest
    (λ _, names <- fetch_projects w ;; open_writer w ;;
          for_each names (process_project w))) as Hbefore.
  destruct (Hbefore emits_load_manifest) with (s := s)
    as (evs & Ht & Hall).
  { intros _. apply emits_bind; [apply emits_fetch_projects|]. intros names.
    apply emits_bind;
      [apply (emits_weaken _ _ _ local_call_loop_event), emits_open_writer|].
    intros _. apply emits_for_each. intros p. apply emits_process_project. }
  clear Hbefore. exists evs.
  unfold main, ingest, bind in *.
  destruct (load_manifest s) as [[[]|e] s1];
    [|exists []; rewrite app_nil_r; by auto].
  destruct (fetch_projects w s1) as [[names|e] s2];
    [|exists []; rewrite app_nil_r; by auto].
  destruct (open_writer w s2) as [[[]|e] s3];
    [|exists []; rewrite app_nil_r; by auto].
  destruct (for_each names (process_project w) s3) as [[[]|e] s4];
    [|exists []; rewrite app_nil_r; by auto].
  cbn in Ht.
  destruct (close_or_not s4) as [[-> ?]| ->];
    [exists []; rewrite app_nil_r; by auto|].
  match goal with
  | |- context [subprocess_run w DataladSave ?s5] =>
      destruct (subprocess_run_cases w DataladSave s5) as [[-> ?]| ->]
  end.
  - exists [Close]. cbn. rewrite Ht, <- app_assoc. by auto 10.
  - exists [Close; DataladSave]. cbn. rewrite Ht, <- !app_assoc. cbn.
    destruct (command_ok _ _ _); by auto 10.
Qed.

End Shape.

Section Ending.

Variables (w : world) (F0 : option (list (list string))) (k : option nat).

Lemma loop_event_not_close evs :
  Forall (loop_event w) evs → (Close ∉ evs) ∧ (DataladSave ∉ evs).
Proof.
  intros Hall. split; intros Hin;
    by apply (proj1 (Forall_forall _ _) Hall) in Hin.
Qed.

(** X5: the dataset is saved at most once, by the last call of the run
    and right after the manifest file object is closed; the manifest is
    closed only once and only after the last project.  A run that returns
    has closed the manifest and saved the dataset; when anything fails
    before, nothing is saved. *)
Theorem save_is_the_last_call :
  let r := (main w (start F0 k)).1 in
  let tr := trace (main w (start F0 k)).2 in
  (DataladSave ∈ tr ∨ r = Ok tt →
     ∃ evs, tr = (evs ++ [Close; DataladSave])%list ∧
            (Close ∉ evs) ∧ (DataladSave ∉ evs)) ∧
  (Close ∈ tr →
     ∃ evs, (Close ∉ evs) ∧ (DataladSave ∉ evs) ∧
            (tr = (evs ++ [Close])%list ∨
             tr = (evs ++ [Close; DataladSave])%list)).
Proof.
  intros r tr.
  destruct (main_calls w (start F0 k))
    as (evs & tail & Ht & Hall & Htail).
  fold r tr in Ht, Htail. cbn in Ht.
  destruct (loop_event_not_close evs Hall) as [Hc Hs].
  split.
  - intros Hin. exists evs.
    destruct Htail as [[-> Hr]|[[-> Hr]|[-> Hr]]].
    + rewrite app_nil_r in Ht. destruct Hin as [Hin|Hin]; [|done].
      by rewrite Ht in Hin.
    + destruct Hin as [Hin|Hin]; [|congruence].
      rewrite Ht, elem_of_app, list_elem_of_singleton in Hin.
      by destruct Hin.
    + done.
  - intros Hin. exists evs. split; [done|]. split; [done|].
    destruct Htail as [[-> Hr]|[[-> Hr]|[-> Hr]]]; auto.
    rewrite app_nil_r in Ht. by rewrite Ht in Hin.
Qed.

(** X6: without [--get] no run ever asks for a download. *)
Theorem no_download_unless_asked :
  args_get w = false →
  ∀ f, DataladGet f ∉ trace (main w (start F0 k)).2.
Proof.
  intros Hget f Hin.
  destruct (main_calls w (start F0 k))
    as (evs & tail & Ht & Hall & Htail).
  cbn in Ht. rewrite Ht, elem_of_app in Hin. destruct Hin as [Hin|Hin].
  - apply (proj1 (Forall_forall _ _) Hall) in Hin. cbn in Hin. congruence.
  - destruct Htail as [[-> _]|[[-> _]|[-> _]]]; set_solver.
Qed.

End Ending.

Lemma save_is_the_last_call_witness :
  ∃ evs, trace (main demo (start None None)).2
           = (evs ++ [Close; DataladSave])%list ∧
         (Close ∉ evs) ∧ (DataladSave ∉ evs).
Proof.
  apply (save_is_the_last_call demo None None). right. by vm_compute.
Defined.

Lemma no_download_unless_asked_witness :
  args_get demo = false ∧
  DataladGet (str (target_of "loris" img_a))
    ∉ trace (main demo (start None None)).2.
Proof.
  split; [reflexivity|].
  apply (no_download_unless_asked demo None None). reflexivity.
Defined.

(** ** The requests to the API *)

Section Requests.

Variable w : world.

Lemma fetched_app tr1 tr2 :
  fetched (tr1 ++ tr2) = (fetched tr1 ++ fetched tr2)%list.
Proof. apply omap_app. Qed.

Lemma local_calls_fetch_nothing evs :
  Forall (local_call w) evs → fetched evs = [].
Proof.
  induction 1 as [|ev evs Hev _ IH]; [done|].
  destruct ev; cbn in *; done.
Qed.

Lemma emits_fetched {A} (m : M A) s :
  emits (local_call w) m → fetched (trace (m s).2) = fetched (trace s).
Proof.
  intros Hm. destruct (Hm s) as (evs & -> & Hall).
  by rewrite fetched_app, (local_calls_fetch_nothing _ Hall), app_nil_r.
Qed.

Lemma process_project_fetched project s :
  fetched (trace (process_project w project s).2) = fetched (trace s) ∧
    (process_project w project s).1 ≠ Ok tt ∨
  fetched (trace (process_project w project s).2)
    = (fetched (trace s) ++ [images_url w project])%list.
Proof.
  unfold process_project, bind.
  destruct (http_get_cases (images_url w project)
              (get_images w (images_url w project)) s) as [[-> ?]| ->];
    [by left|].
  destruct (get_images w (images_url w project)) as [|body].
  - right. cbn. by rewrite fetched_app.
  - right. rewrite emits_fetched.
    + cbn. by rewrite fetched_app.
    + apply emits_for_each. intros img. apply emits_process_image.
Qed.

Lemma fmap_prefix {A B} (f : A → B) (l1 l2 : list A) :
  l1 `prefix_of` l2 → (f <$> l1) `prefix_of` (f <$> l2).
Proof. intros [l ->]. exists (f <$> l). by rewrite fmap_app. Qed.

Lemma projects_loop_fetched (names : list string) s :
  ∃ seen,
    seen `prefix_of` names ∧
    fetched (trace (for_each names (process_project w) s).2)
      = (fetched (trace s) ++ (images_url w <$> seen))%list ∧
    ((for_each names (process_project w) s).1 = Ok tt → seen = names).
Proof.
  revert s. induction names as [|p names IH]; intros s.
  - exists []. by rewrite app_nil_r.
  - cbn [for_each]. unfold bind.
    destruct (process_project_fetched p s) as [[Hf Hr]|Hf].
    + exists []. rewrite app_nil_r.
      destruct (process_project w p s) as [[[]|e] s1]; [done|].
      split; [apply prefix_nil|]. by split.
    + destruct (process_project w p s) as [[[]|e] s1]; cbn in Hf.
      * destruct (IH s1) as (seen & Hpre & Hfetch & Hok).
        exists (p :: seen). split; [by apply prefix_cons|].
        split; [by rewrite Hfetch, Hf, <- app_assoc|].
        intros Hr. by rewrite (Hok Hr).
      * exists [p]. split; [apply prefix_cons, prefix_nil|]. by split.
Qed.

Lemma sorted_keys_sorted (m : gmap string unit) :
  StronglySorted String.le (sorted_keys m) ∧ NoDup (sorted_keys m) ∧
  ∀ p, p ∈ sorted_keys m ↔ is_Some (m !! p).
Proof.
  unfold sorted_keys. split; [|split].
  - apply StronglySorted_merge_sort; apply _.
  - rewrite merge_sort_Permutation. apply NoDup_elements.
  - intros p. by rewrite merge_sort_Permutation, elem_of_elements, elem_of_dom.
Qed.

Lemma ingest_fetched s :
  fetched (trace (ingest w s).2)
    `prefix_of` (fetched (trace s) ++ projects_url w
                   :: (images_url w <$> project_names w))%list ∧
  ((ingest w s).1 = Ok tt →
     fetched (trace (ingest w s).2)
       = (fetched (trace s) ++ projects_url w
            :: (images_url w <$> project_names w))%list).
Proof.
  unfold ingest, bind.
  pose proof (fetch_projects_result w s) as Hnames.
  assert (fetched (trace (fetch_projects w s).2) = fetched (trace s) ∧
            (∀ names, (fetch_projects w s).1 ≠ Ok names) ∨
          fetched (trace (fetch_projects w s).2)
            = (fetched (trace s) ++ [projects_url w])%list) as Hfetch.
  { unfold fetch_projects, bind.
    destruct (http_get_cases (API_BASE w +:+ "/projects") (get_projects w) s)
      as [[-> ?]| ->]; [by left|right].
    destruct (get_projects w) as [|body]; cbn.
    - by rewrite fetched_app.
    - case_decide; cbn; by rewrite fetched_app. }
  destruct (fetch_projects w s) as [[names|e] s1]; cbn in Hfetch.
  2:{ split; [|done]. cbn. destruct Hfetch as [[-> _]| ->].
      - by apply prefix_app_r.
      - apply prefix_app, prefix_cons, prefix_nil. }
  destruct Hfetch as [[_ Hno]|Hfetch]; [by destruct (Hno names)|].
  rewrite <- (Hnames names eq_refl). clear Hnames.
  pose proof (emits_fetched (open_writer w) s1 (emits_open_writer w)) as Hopen.
  destruct (open_writer w s1) as [[[]|e] s2]; cbn in Hopen.
  2:{ split; [|done]. cbn. rewrite Hopen, Hfetch.
      apply prefix_app, prefix_cons, prefix_nil. }
  destruct (projects_loop_fetched names s2) as (seen & Hpre & Hloop & Hall).
  destruct (for_each names (process_project w) s2) as [[[]|e] s3];
    cbn in Hloop.
  2:{ split; [|done]. cbn. rewrite Hloop, Hopen, Hfetch, <- app_assoc.
      apply prefix_app. cbn. apply prefix_cons. by apply fmap_prefix. }
  rewrite (Hall eq_refl) in Hloop.
  assert (fetched (trace s3)
            = (fetched (trace s) ++ projects_url w
                 :: (images_url w <$> names))%list) as Hs3.
  { by rewrite Hloop, Hopen, Hfetch, <- app_assoc. }
  assert (∀ s4, fetched (trace (close s4).2) = fetched (trace s4)) as Hclose.
  { intros s4. destruct (close_or_not s4) as [[-> ?]| ->]; [done|].
    cbn. by rewrite fetched_app, app_nil_r. }
  assert (∀ s5, fetched (trace (subprocess_run w DataladSave s5).2)
                = fetched (trace s5)) as Hsave.
  { intros s5.
    destruct (subprocess_run_cases w DataladSave s5) as [[-> ?]| ->]; [done|].
    cbn. by rewrite fetched_app, app_nil_r. }
  specialize (Hclose s3).
  destruct (close s3) as [[[]|e] s4]; cbn in Hclose.
  2:{ cbn. by rewrite Hclose, Hs3. }
  specialize (Hsave s4). rewrite Hsave, Hclose, Hs3. done.
Qed.

(** X7: the API is asked once for the projects and then once for the
    images of each project, in the ascending order of the project names
    and each project once; a run that stops early has asked a beginning
    of this list. *)
Theorem requests_in_project_order (F0 : option (list (list string)))
    (k : option nat) :
  let r := (main w (start F0 k)).1 in
  let tr := trace (main w (start F0 k)).2 in
  fetched tr `prefix_of` projects_url w :: (images_url w <$> project_names w) ∧
  (r = Ok tt →
     fetched tr = projects_url w :: (images_url w <$> project_names w)) ∧
  StronglySorted String.le (project_names w) ∧ NoDup (project_names w).
Proof.
  intros r tr. subst r tr. unfold main, bind.
  pose proof (load_manifest_trace (start F0 k)) as Htr.
  destruct (load_manifest (start F0 k)) as [[[]|e] s1]; cbn in Htr.
  - pose proof (ingest_fetched s1) as [Hpre Hok]. rewrite Htr in Hpre, Hok.
    split; [done|]. split; [done|].
    unfold project_names. destruct (get_projects w) as [|body].
    + split; constructor.
    + split; apply sorted_keys_sorted.
  - cbn. rewrite Htr. split; [apply prefix_nil|]. split; [done|].
    unfold project_names. destruct (get_projects w) as [|body].
    + split; constructor.
    + split; apply sorted_keys_sorted.
Qed.

End Requests.

Lemma requests_in_project_order_witness :
  fetched (trace (main demo (start None None)).2)
    = projects_url demo :: (images_url demo <$> project_names demo).
Proof.
  destruct (requests_in_project_order demo None None) as (_ & H & _).
  apply H. by vm_compute.
Defined.

(** ** The manifest file and the file object *)

Section AppendOnly.

Variable w : world.

Lemma file_grows_same {A} (m : M A) :
  (∀ s, manifest (m s).2 = manifest s) → file_grows m.
Proof. intros Hm s. by rewrite Hm. Qed.

Lemma file_grows_bind {A B} (m : M A) (f : A → M B) :
  file_grows m → (∀ a, file_grows (f a)) → file_grows (bind m f).
Proof.
  intros Hm Hf s. unfold bind. destruct (Hm s) as [Hpre Hsome].
  destruct (m s) as [[a|e] s']; cbn in Hpre, Hsome; [|done].
  destruct (Hf a s') as [Hpre' Hsome']. split; [by etrans|auto].
Qed.

Lemma file_grows_for_each {A} (l : list A) (body : A → M unit) :
  (∀ x, file_grows (body x)) → file_grows (for_each l body).
Proof.
  intros Hbody. induction l as [|x l IH]; [by apply file_grows_same|].
  cbn [for_each]. by apply file_grows_bind.
Qed.

Lemma process_image_manifest project img s :
  manifest (process_image w project img s).2 = manifest s.
Proof.
  destruct (process_image_step w project img s)
    as [Hin|s' evs Hin Hevs (HX & HF & HB & HT)
       |s' p Hin (HX & HF & HB & HT)|s' Hin Hok (HX & HF & HB & HT)
       |s' Hin Hok (HX & HF & HB & HT)
       |s' r evs Hin Hok Hevs (HX & HF & HB & HT)]; done.
Qed.

Lemma load_loop_files (ds : list (gmap string (option string))) s :
  manifest (for_each ds add_target_path s).2 = manifest s ∧
  f_out (for_each ds add_target_path s).2 = f_out s.
Proof.
  revert s. induction ds as [|d ds IH]; intros s; [done|].
  cbn [for_each]. unfold bind.
  assert (manifest (add_target_path d s).2 = manifest s ∧
          f_out (add_target_path d s).2 = f_out s) as [Hd Hd'].
  { unfold add_target_path, bind, getitem.
    destruct (d !! "target_path") as [v|]; [|done]. cbn.
    by destruct (existing_files_add_or_not v s) as [[-> ?]| ->]. }
  destruct (add_target_path d s) as [[[]|e] s1]; cbn in Hd, Hd'; [|done].
  destruct (IH s1) as [-> ->]. done.
Qed.

Lemma load_manifest_files s :
  manifest (load_manifest s).2 = manifest s ∧
  f_out (load_manifest s).2 = f_out s.
Proof.
  unfold load_manifest, bind, get_state. cbn.
  destruct (manifest s) as [recs|] eqn:Hm.
  - rewrite <- Hm. apply load_loop_files.
  - by split.
Qed.

Lemma file_grows_main : file_grows (main w).
Proof.
  unfold main, ingest.
  apply file_grows_bind.
  { apply file_grows_same. intros s. apply load_manifest_files. }
  intros _. apply file_grows_bind.
  { apply file_grows_same. intros s. unfold fetch_projects, bind.
    destruct (http_get_cases (API_BASE w +:+ "/projects") (get_projects w) s)
      as [[-> ?]| ->]; [done|].
    destruct (get_projects w); [done|]. cbn. by case_decide. }
  intros names. apply file_grows_bind.
  { unfold open_writer.
    apply file_grows_bind; [by apply file_grows_same|]. intros s0.
    apply file_grows_bind.
    { apply file_grows_same. intros s.
      destruct (mkdir_cases w (DATASET_DIR w) s) as [[-> ?]| ->]; done. }
    intros _. apply file_grows_bind.
    { intros s. destruct (open_append_or_not s) as [[-> ?]| ->]; [done|].
      cbn. split; [|eauto]. by destruct (manifest s). }
    intros _. destruct (negb _); [|by apply file_grows_same].
    apply file_grows_same. intros s.
    by destruct (writeheader_or_not s) as [[-> ?]| ->]. }
  intros _. apply file_grows_bind.
  { apply file_grows_for_each. intros p. unfold process_project.
    apply file_grows_bind.
    { apply file_grows_same. intros s.
      destruct (http_get_cases (images_url w p)
                  (get_images w (images_url w p)) s) as [[-> ?]| ->]; [done|].
      by destruct (get_images w (images_url w p)). }
    intros body. apply file_grows_for_each. intros img.
    apply file_grows_same. apply process_image_manifest. }
  intros _. apply file_grows_bind.
  { intros s. destruct (close_or_not s) as [[-> ?]| ->]; [done|].
    cbn. split; [|eauto]. by apply prefix_app_r. }
  intros _. apply file_grows_same. intros s.
  destruct (subprocess_run_cases w DataladSave s) as [[-> ?]| ->]; [done|].
  by destruct (command_ok _ _ _).
Qed.

(** X8: the manifest file is only ever appended to: whatever a run does
    and wherever it stops, the records the file held are still there, in
    the same order, at the beginning of the file, and a file that existed
    still exists. *)
Theorem manifest_is_append_only s :
  default [] (manifest s) `prefix_of` default [] (manifest (main w s).2) ∧
  (is_Some (manifest s) → is_Some (manifest (main w s).2)).
Proof. apply file_grows_main. Qed.

(** X9: when the download of a record fails, the record has been
    registered, its row has been written and its path is in the dedup
    set: the record is skipped from then on, by this run and by every run
    that has its path in the dedup set, so the download is not tried
    again. *)
Theorem failed_download_is_not_retried project img s :
  (process_image w project img s).1
    = Raise (CalledProcessError (get_of project img)) →
  let s' := (process_image w project img s).2 in
  args_get w = true ∧
  trace s' = (trace s ++ [mkdir_of w project img; addurl_of w project img;
                          WriteRow (row_of w project img);
                          get_of project img])%list ∧
  f_out s' = (f_out s ++ [dict_to_list (row_of w project img)])%list ∧
  Some (str (target_of project img)) ∈ existing_files s' ∧
  (∀ w2 s2, existing_files s' ⊆ existing_files s2 →
     process_image w2 project img s2 = (Ok tt, s2)).
Proof.
  intros Hr s'. pose proof (process_image_step w project img s) as Hstep.
  fold s' in Hstep. rewrite Hr in Hstep.
  assert (args_get w = true ∧
    trace s' = (trace s ++ [mkdir_of w project img; addurl_of w project img;
                            WriteRow (row_of w project img);
                            get_of project img])%list ∧
    f_out s' = (f_out s ++ [dict_to_list (row_of w project img)])%list ∧
    Some (str (target_of project img)) ∈ existing_files s')
    as (Hget & Ht & Hf & Hin).
  { inversion Hstep
      as [| | | |
          |s1 r1 evs Hnew Hok Hevs (HX & HF & HB & HT)]; subst.
    destruct Hevs as [(-> & [[[=] _]|[[=] _]])|(-> & Hget & _)].
    repeat split; try done. rewrite HX. set_solver. }
  repeat split; try done.
  intros w2 s2 Hsub. apply process_image_skip. by apply Hsub.
Qed.

(** X10: when the API gives no project, because the request fails or
    because the answer has none, no manifest file is created and nothing
    is written, registered or saved: the run raises and leaves the file as
    it found it. *)
Theorem no_projects_no_manifest (F0 : option (list (list string)))
    (k : option nat) :
  (get_projects w = HttpFail ∨
   ∃ body, get_projects w = HttpJson body ∧ default ∅ (Projects body) = ∅) →
  let s := (main w (start F0 k)).2 in
  (main w (start F0 k)).1 ≠ Ok tt ∧ manifest s = F0 ∧ f_out s = [] ∧
  trace s `prefix_of` [HttpGet (projects_url w)].
Proof.
  intros Hnone s. subst s. unfold main, bind.
  pose proof (load_manifest_trace (start F0 k)) as Htr.
  destruct (load_manifest_files (start F0 k)) as [Hm Hf].
  destruct (load_manifest (start F0 k)) as [[[]|e] s1]; cbn in Htr, Hm, Hf.
  2:{ cbn. rewrite Htr. repeat split; try done. apply prefix_nil. }
  unfold ingest, bind, fetch_projects, bind.
  destruct (http_get_cases (API_BASE w +:+ "/projects") (get_projects w) s1)
    as [[-> ?]| ->].
  { cbn. rewrite Htr. repeat split; try done. apply prefix_nil. }
  destruct Hnone as [-> |(body & -> & Hempty)]; cbn.
  - rewrite Htr. repeat split; done.
  - rewrite decide_True by done. cbn. rewrite Htr. repeat split; done.
Qed.

End AppendOnly.

Lemma manifest_is_append_only_witness :
  is_Some (manifest (main demo (start (Some [fieldnames]) None)).2).
Proof.
  apply (manifest_is_append_only demo (start (Some [fieldnames]) None)).
  by eexists.
Defined.

Lemma failed_download_is_not_retried_witness :
  let s := set_f_out [fieldnames] (start (Some []) None) in
  Some (str (target_of "loris" img_a))
    ∈ existing_files (process_image demo_download_fails "loris" img_a s).2.
Proof.
  intros s.
  destruct (failed_download_is_not_retried demo_download_fails "loris" img_a s)
    as (_ & _ & _ & H & _); [by vm_compute|exact H].
Defined.

Lemma no_projects_no_manifest_witness :
  manifest (main demo_without_keys (start None None)).2 = None ∧
  manifest (main demo_empty (start None None)).2 = None.
Proof.
  split.
  - destruct (no_projects_no_manifest demo_without_keys None None)
      as (_ & H & _); [|exact H].
    right. by eexists.
  - destruct (no_projects_no_manifest demo_empty None None)
      as (_ & H & _); [|exact H].
    right. by eexists.
Defined.

(** ** Which records share a destination path *)

Section Collisions.

Implicit Types (s p r : string) (l : list string) (a b : image).

Lemma startswith_split s p :
  Str.startswith s p = true → ∃ r, s = p +:+ r.
Proof.
  unfold Str.startswith. revert s. induction p as [|c p IH]; intros s Hp.
  - by exists s.
  - destruct s as [|d s]; [done|]. cbn in Hp.
    destruct (ascii_dec c d) as [->|]; [|done].
    destruct (IH s Hp) as [r ->]. by exists r.
Qed.

Lemma startswith_app p r : Str.startswith (p +:+ r) p = true.
Proof.
  unfold Str.startswith. induction p as [|c p IH]; [by destruct r|].
  change (String c p +:+ r) with (String c (p +:+ r)). cbn.
  by destruct (ascii_dec c c).
Qed.

(** A scan type that matches a rule gets the modality and the suffix of
    that rule: no two prefixes of the table match the same string. *)
Lemma rule_applies s prefix res :
  (prefix, res) ∈ rules → Str.startswith s prefix = true →
  modality_suffix s = res.
Proof.
  intros Hin Hp. destruct (startswith_split s prefix Hp) as [r ->].
  unfold rules in Hin. set_unfold in Hin.
  destruct Hin as [[= -> ->]|[[= -> ->]|[[= -> ->]|[[= -> ->]|[]]]]];
    unfold modality_suffix.
  - by rewrite startswith_app.
  - rewrite (startswith_app "t2" r). done.
  - rewrite (startswith_app "fieldmap" r). done.
  - rewrite (startswith_app "dwi" r). done.
Qed.

(** X11: two records of the same candidate and visit whose scan types
    match the same rule of the table, whatever their case and whatever
    follows the prefix, have the same BIDS path and so the same
    destination path in a project: only the first of them is registered,
    the other is skipped as already registered. *)
Theorem same_rule_same_path (w : world) project a b prefix (st : state) :
  Candidate a = Candidate b → Visit a = Visit b →
  prefix ∈ rules.*1 →
  Str.startswith (Str.lower (ScanType a)) prefix = true →
  Str.startswith (Str.lower (ScanType b)) prefix = true →
  bids_path a = bids_path b ∧
  target_of project a = target_of project b ∧
  (Some (str (target_of project a)) ∈ existing_files st →
   process_image w project b st = (Ok tt, st)).
Proof.
  intros Hc Hv Hin Ha Hb.
  apply list_elem_of_fmap in Hin as ([prefix' res] & -> & Hin). cbn in Ha, Hb.
  assert (bids_path a = bids_path b) as Hpath.
  { unfold bids_path.
    by rewrite Hc, Hv, (rule_applies _ _ _ Hin Ha), (rule_applies _ _ _ Hin Hb). }
  assert (target_of project a = target_of project b) as Htarget.
  { unfold target_of. by rewrite Hpath. }
  repeat split; [done..|].
  intros Hknown. apply process_image_skip. by rewrite <- Htarget.
Qed.

Lemma same_rule_same_path_witness :
  target_of "loris" img_a = target_of "loris" img_b.
Proof.
  refine (proj1 (proj2 (same_rule_same_path demo "loris" img_a img_b "t2"
                          (start None None) eq_refl eq_refl _ eq_refl eq_refl))).
  unfold rules. cbn. set_solver.
Defined.

Lemma split_app_sep x rest :
  Str.contains sep x = false →
  Str.split sep (x +:+ String sep rest) = x :: Str.split sep rest.
Proof.
  induction x as [|c x IH]; intros Hx.
  - done.
  - cbn in Hx. apply orb_false_iff in Hx as [Hc Hx].
    change (String c x +:+ String sep rest)
      with (String c (x +:+ String sep rest)).
    cbn [Str.split]. by rewrite Hc, (IH Hx).
Qed.

(** Splitting at the slashes gives back slash-free components. *)
Lemma split_join l :
  l ≠ [] → Forall (λ x, Str.contains sep x = false) l →
  Str.split sep (Str.join "/" l) = l.
Proof.
  intros Hl Hall. induction Hall as [|x l Hx Hall IH]; [done|].
  destruct l as [|y l].
  - cbn. by apply split_no_sep.
  - change (Str.join "/" (x :: y :: l))
      with (x +:+ String sep (Str.join "/" (y :: l))).
    rewrite (split_app_sep _ _ Hx). f_equal. by apply IH.
Qed.

Lemma length_append s r :
  String.length (s +:+ r) = (String.length s + String.length r)%nat.
Proof.
  induction s as [|c s IH]; [done|].
  change (String c s +:+ r) with (String c (s +:+ r)). cbn. by rewrite IH.
Qed.

Lemma append_cancel_r s1 s2 r : s1 +:+ r = s2 +:+ r → s1 = s2.
Proof.
  revert s2. induction s1 as [|c s1 IH]; intros [|d s2] Heq.
  - done.
  - apply (f_equal String.length) in Heq.
    rewrite !length_append in Heq. cbn in Heq. lia.
  - apply (f_equal String.length) in Heq.
    rewrite !length_append in Heq. cbn in Heq. lia.
  - change (String c (s1 +:+ r) = String d (s2 +:+ r)) in Heq.
    injection Heq as -> Heq. f_equal. by apply IH.
Qed.

(** X12: for records whose fields have no slash, the destination path
    tells the project, the candidate, the visit, the modality and the
    suffix: two records get the same destination path only if they agree
    on all of these, so records of different candidates, visits or
    projects never take each other's place in the manifest. *)
Theorem same_path_same_record project project' a b :
  Str.contains sep project = false → kept project = true →
  Str.contains sep project' = false → kept project' = true →
  Str.contains sep (Candidate a) = false → Str.contains sep (Visit a) = false →
  Str.contains sep (ScanType a) = false →
  Str.contains sep (Candidate b) = false → Str.contains sep (Visit b) = false →
  Str.contains sep (ScanType b) = false →
  str (target_of project a) = str (target_of project' b) →
  project = project' ∧ Candidate a = Candidate b ∧ Visit a = Visit b ∧
  modality_suffix (Str.lower (ScanType a))
    = modality_suffix (Str.lower (ScanType b)).
Proof.
  intros Hp Hkp Hp' Hkp' Hca Hva Hsa Hcb Hvb Hsb Heq.
  destruct (modality_suffix (Str.lower (ScanType a))) as [ma sa] eqn:Hma.
  destruct (modality_suffix (Str.lower (ScanType b))) as [mb sb] eqn:Hmb.
  rewrite (target_of_parts project a ma sa Hp Hkp Hca Hva Hsa Hma) in Heq.
  rewrite (target_of_parts project' b mb sb Hp' Hkp' Hcb Hvb Hsb Hmb) in Heq.
  destruct (modality_suffix_cases (Str.lower (ScanType a)))
    as (ma' & sa' & Hma' & Hmain & Hsfxa).
  destruct (modality_suffix_cases (Str.lower (ScanType b)))
    as (mb' & sb' & Hmb' & Hmbin & Hsfxb).
  rewrite Hma in Hma'. injection Hma' as <- <-.
  rewrite Hmb in Hmb'. injection Hmb' as <- <-.
  rewrite contains_lower in Hsfxa, Hsfxb.
  specialize (Hsfxa Hsa). specialize (Hsfxb Hsb).
  assert (Str.contains sep ma = false) as Hmas.
  { set_unfold in Hmain. destruct Hmain as [->|[->|[->|[->|[]]]]]; done. }
  assert (Str.contains sep mb = false) as Hmbs.
  { set_unfold in Hmbin. destruct Hmbin as [->|[->|[->|[->|[]]]]]; done. }
  change (Str.join "/" ["data"; project; "sub-" +:+ Candidate a;
                        "ses-" +:+ Visit a; ma;
                        bids_name ("sub-" +:+ Candidate a)
                          ("ses-" +:+ Visit a) sa]
          = Str.join "/" ["data"; project'; "sub-" +:+ Candidate b;
                          "ses-" +:+ Visit b; mb;
                          bids_name ("sub-" +:+ Candidate b)
                            ("ses-" +:+ Visit b) sb]) in Heq.
  apply (f_equal (Str.split sep)) in Heq.
  rewrite (split_join ["data"; project; _; _; ma; _]) in Heq;
    [|done|repeat constructor; try done;
           auto using contains_sub, contains_ses, contains_bids_name].
  rewrite (split_join ["data"; project'; _; _; mb; _]) in Heq;
    [|done|repeat constructor; try done;
           auto using contains_sub, contains_ses, contains_bids_name].
  injection Heq as -> Hsub Hses -> Hname.
  apply (inj _) in Hsub. apply (inj _) in Hses. rewrite Hsub, Hses in Hname.
  unfold bids_name in Hname. do 4 apply (inj _) in Hname.
  apply append_cancel_r in Hname. by subst.
Qed.

End Collisions.

Lemma same_path_same_record_witness :
  Candidate img_a = Candidate img_b ∧ Visit img_a = Visit img_b ∧
  modality_suffix (Str.lower (ScanType img_a))
    = modality_suffix (Str.lower (ScanType img_b)).
Proof.
  refine (proj2 (same_path_same_record "loris" "loris" img_a img_b
                   _ _ _ _ _ _ _ _ _ _ _)); reflexivity.
Defined.

(** ** Where the destination lies *)

Section Placement.

Implicit Types (s : string) (p q : PurePath) (img : image).

Lemma root_Path s : root (Path s) = (splitroot s).1.
Proof. unfold Path. by destruct (splitroot s). Qed.

Lemma parts_Path s :
  parts (Path s) = List.filter kept (Str.split sep (splitroot s).2).
Proof. unfold Path. by destruct (splitroot s). Qed.

Lemma prefix_empty s : String.prefix "" s = true.
Proof. by destruct s. Qed.

Lemma startswith_slash c s :
  Str.startswith (String c s) "/" = Ascii.eqb c sep.
Proof.
  unfold Str.startswith.
  change (String.prefix "/" (String c s))
    with (if ascii_dec "/" c then String.prefix "" s else false).
  destruct (ascii_dec "/" c) as [<-|Hn].
  - by rewrite prefix_empty.
  - symmetry. apply Ascii.eqb_neq. intros Heq. apply Hn. by rewrite Heq.
Qed.

Lemma relative_iff s : root (Path s) = "" ↔ Str.startswith s "/" = false.
Proof.
  rewrite root_Path. destruct s as [|c s]; [done|].
  rewrite startswith_slash. unfold splitroot.
  destruct (Ascii.eqb c sep); [|done].
  destruct (_ =? 2)%nat; cbn; split; intros; discriminate.
Qed.

Lemma absolute_root s :
  Str.startswith s "/" = true → root (Path s) = "/" ∨ root (Path s) = "//".
Proof.
  rewrite root_Path. destruct s as [|c s]; [done|].
  rewrite startswith_slash. unfold splitroot. intros ->.
  destruct (_ =? 2)%nat; auto.
Qed.

Lemma div_relative p s :
  Str.startswith s "/" = false →
  p // s = {| root := root p; parts := parts p ++ parts (Path s) |}.
Proof.
  intros Hs. unfold div. apply joinpath_relative. by apply relative_iff.
Qed.

(** The first component of a path that starts with a letter. *)
Lemma parts_letter c s :
  Ascii.eqb c sep = false → Ascii.eqb c "." = false →
  ∃ x l, parts (Path (String c s)) = x :: l.
Proof.
  intros Hc Hdot. rewrite parts_Path. unfold splitroot. rewrite Hc.
  cbn [snd Str.split]. rewrite Hc.
  assert (∀ y, kept (String c y) = true) as Hkept.
  { intros y. unfold kept. cbn. rewrite Hdot. by destruct y. }
  destruct (Str.split sep s) as [|y ys]; cbn [List.filter];
    rewrite Hkept; eauto.
Qed.

(** The path of [bids_path] is relative and has a first component. *)
Lemma bids_path_relative img :
  root (bids_path img).1 = "" ∧ ∃ x l, parts (bids_path img).1 = x :: l.
Proof.
  unfold bids_path.
  destruct (modality_suffix_cases (Str.lower (ScanType img)))
    as (m & sfx & -> & Hm & _). cbn [fst].
  assert (Str.startswith m "/" = false) as Hrel.
  { set_unfold in Hm. destruct Hm as [->|[->|[->|[->|[]]]]]; done. }
  rewrite (div_relative _ (bids_name _ _ sfx)) by done.
  rewrite (div_relative _ m Hrel).
  rewrite (div_relative _ ("ses-" +:+ Visit img)) by done.
  cbn [root parts].
  destruct (parts_letter "s" ("ub-" +:+ Candidate img) eq_refl eq_refl)
    as (x & l & Hx).
  change (String "s" ("ub-" +:+ Candidate img))
    with ("sub-" +:+ Candidate img) in Hx.
  split; [done|]. rewrite Hx. cbn. eauto.
Qed.

Lemma join_cons x y l :
  Str.join "/" (x :: y :: l) = x +:+ "/" +:+ Str.join "/" (y :: l).
Proof. done. Qed.

(** X13: the destination of a record is inside the directory [data] of
    the dataset exactly when the project name does not start with a
    slash: then the destination path is relative and starts with [data/];
    a project name that starts with a slash replaces [data], and the
    destination is an absolute path, whatever the dataset directory
    is. *)
Theorem destination_under_data project img :
  (Str.startswith project "/" = false →
     root (target_of project img) = "" ∧
     ∃ rest, str (target_of project img) = "data/" +:+ rest) ∧
  (Str.startswith project "/" = true →
     root (target_of project img) ≠ "" ∧
     (∀ dataset, joinpath dataset (target_of project img)
                   = target_of project img) ∧
     ∃ rest, str (target_of project img) = "/" +:+ rest).
Proof.
  destruct (bids_path_relative img) as (Hroot & x & l & Hparts).
  unfold target_of. rewrite (joinpath_relative _ _ Hroot), Hparts.
  split; intros Hp.
  - rewrite (div_relative _ _ Hp). cbn [root parts].
    split; [done|]. unfold str. cbn [root parts].
    change (parts (Path "data")) with ["data"].
    change (root (Path "data")) with "".
    rewrite <- app_assoc.
    destruct (parts (Path project) ++ x :: l)%list as [|y ys] eqn:Hl.
    { by destruct (parts (Path project)). }
    change (["data"] ++ y :: ys)%list with ("data" :: y :: ys).
    rewrite join_cons. by eexists.
  - assert (root (Path "data" // project) = root (Path project) ∧
            parts (Path "data" // project) = parts (Path project))
      as [-> ->].
    { unfold div, joinpath.
      destruct (absolute_root _ Hp) as [Hr|Hr]; by rewrite Hr. }
    assert (root (Path project) ≠ "") as Hne.
    { destruct (absolute_root _ Hp) as [Hr|Hr]; by rewrite Hr. }
    split; [done|]. split.
    + intros dataset. unfold joinpath at 1. cbn [root].
      destruct (absolute_root _ Hp) as [Hr|Hr]; by rewrite Hr.
    + unfold str. cbn [root parts].
      destruct (absolute_root _ Hp) as [Hr|Hr]; rewrite Hr; by eexists.
Qed.

End Placement.

Lemma destination_under_data_witness :
  (∃ rest, str (target_of "loris" img_a) = "data/" +:+ rest) ∧
  root (target_of "/srv" img_a) ≠ "".
Proof.
  split.
  - apply (destination_under_data "loris" img_a). reflexivity.
  - apply (destination_under_data "/srv" img_a). reflexivity.
Defined.

(** ** Before the manifest: command line, login, dataset *)

Section BaseUrl.

Implicit Types (c : ascii) (s t : string).

Lemma repeat_snoc c n :
  Setup.repeat c (S n) = Setup.repeat c n +:+ String c "".
Proof.
  induction n as [|n IH]; [done|].
  change (String c (Setup.repeat c (S n))
          = String c (Setup.repeat c n +:+ String c "")).
  by rewrite <- IH.
Qed.

Lemma rstrip_cons c d r :
  Setup.rstrip c (String d r)
  = match Setup.rstrip c r with
    | EmptyString =>
        if Ascii.eqb d c then EmptyString else String d EmptyString
    | r' => String d r'
    end.
Proof. reflexivity. Qed.

Lemma rstrip_snoc c s : Setup.rstrip c (s +:+ String c "") = Setup.rstrip c s.
Proof.
  induction s as [|d r IH].
  - change ("" +:+ String c "") with (String c "").
    rewrite rstrip_cons. change (Setup.rstrip c "") with "".
    by rewrite Ascii.eqb_refl.
  - change (String d r +:+ String c "") with (String d (r +:+ String c "")).
    by rewrite !rstrip_cons, IH.
Qed.

Lemma endswith_cons c d a b :
  Setup.endswith (String d (String a b)) c = Setup.endswith (String a b) c.
Proof. reflexivity. Qed.

Lemma endswith_one c d : Setup.endswith (String d "") c = Ascii.eqb d c.
Proof. reflexivity. Qed.

Lemma rstrip_fixed c s : Setup.endswith s c = false → Setup.rstrip c s = s.
Proof.
  induction s as [|d r IH]; [done|].
  rewrite rstrip_cons. destruct r as [|a b].
  - rewrite endswith_one. change (Setup.rstrip c "") with "". by intros ->.
  - rewrite endswith_cons. intros H. by rewrite (IH H).
Qed.

Lemma rstrip_endswith c s : Setup.endswith (Setup.rstrip c s) c = false.
Proof.
  induction s as [|d r IH]; [done|].
  rewrite rstrip_cons. destruct (Setup.rstrip c r) as [|a b] eqn:Hr.
  - destruct (Ascii.eqb d c) eqn:Hd; [done|]. by rewrite endswith_one.
  - by rewrite endswith_cons.
Qed.

Lemma rstrip_decompose c s :
  ∃ n, s = Setup.rstrip c s +:+ Setup.repeat c n.
Proof.
  induction s as [|d r [n IH]]; [by exists O|].
  rewrite rstrip_cons. destruct (Setup.rstrip c r) as [|a b] eqn:Hr.
  - change ("" +:+ Setup.repeat c n) with (Setup.repeat c n) in IH.
    destruct (Ascii.eqb d c) eqn:Hd.
    + apply Ascii.eqb_eq in Hd as ->. exists (S n). by rewrite IH at 1.
    + exists n. by rewrite IH at 1.
  - exists n. by rewrite IH at 1.
Qed.

(** X14.  [API_BASE = args.api_base.rstrip("/")] removes exactly the
    trailing slashes: a base that is [t] followed by any number of
    slashes, [t] not ending in one, gives [t]; and every base is of that
    form, with [t] the stripped value. *)
Theorem api_base_trailing_slashes :
  (∀ t n, Setup.endswith t "/" = false →
          Setup.rstrip "/" (t +:+ Setup.repeat "/" n) = t) ∧
  (∀ base, Setup.endswith (Setup.rstrip "/" base) "/" = false ∧
           ∃ n, base = Setup.rstrip "/" base +:+ Setup.repeat "/" n).
Proof.
  split.
  - intros t n Ht. induction n as [|n IH].
    + change (Setup.repeat "/" 0) with "".
      replace (t +:+ "") with t; [by apply rstrip_fixed|].
      clear. induction t as [|d r IH]; [done|].
      change (String d r +:+ "") with (String d (r +:+ "")). by rewrite <- IH.
    + rewrite repeat_snoc.
      replace (t +:+ (Setup.repeat "/" n +:+ "/"))
        with ((t +:+ Setup.repeat "/" n) +:+ "/").
      * by rewrite rstrip_snoc.
      * clear. induction t as [|d r IH]; [done|].
        change (String d r +:+ Setup.repeat "/" n)
          with (String d (r +:+ Setup.repeat "/" n)).
        change (String d (r +:+ Setup.repeat "/" n) +:+ "/")
          with (String d ((r +:+ Setup.repeat "/" n) +:+ "/")).
        by rewrite IH.
  - intros base. split; [apply rstrip_endswith | apply rstrip_decompose].
Qed.

End BaseUrl.

Lemma api_base_trailing_slashes_witness :
  Setup.rstrip "/" ("https://loris.example/api" +:+ Setup.repeat "/" 2)
  = "https://loris.example/api".
Proof.
  apply (proj1 api_base_trailing_slashes "https://loris.example/api" 2).
  reflexivity.
Defined.

Section Login.

Implicit Types (c : Setup.setting) (tr : list Setup.call).

Local Ltac run_setup :=
  unfold Setup.setup, Setup.bind, Setup.ret, Setup.raise, Setup.ask,
    Setup.post_login, Setup.mkdir_dataset, Setup.subprocess_run;
  repeat (case_match; simplify_eq/=).

Local Ltac some_prefix :=
  first [ by eexists []
        | by eexists [_]
        | by eexists [_; _]
        | by eexists [_; _; _]
        | by eexists [_; _; _; _]
        | by eexists [_; _; _; _; _]
        | by eexists [_; _; _; _; _; _]
        | by eexists [_; _; _; _; _; _; _] ].

(** X15.  Whatever the outcome, the script makes one login request, to
    the stripped base followed by [/login], after at most the two
    prompts and before any call on the dataset directory.  A variable
    that is set and not empty is sent as it is, without a prompt; one
    that is unset or empty is asked for, and what was typed is sent. *)
Theorem login_request_comes_first c tr :
  ∃ prompts username password rest,
    (Setup.setup c tr).2
    = (tr ++ prompts
          ++ [Setup.Post (Setup.rstrip "/" (Setup.api_base c) +:+ "/login")
                username password]
          ++ rest)%list ∧
    Forall (λ cl, Setup.on_disk cl = true) rest ∧
    prompts
    = ((if Setup.truthy (Setup.LORIS_USERNAME c) then []
        else [Setup.Input "Loris username: "])
       ++ (if Setup.truthy (Setup.LORIS_PASSWORD c) then []
           else [Setup.Getpass "Loris password: "]))%list ∧
    (∀ v, Setup.LORIS_USERNAME c = Some v → v ≠ "" → username = v) ∧
    (∀ v, Setup.LORIS_PASSWORD c = Some v → v ≠ "" → password = v) ∧
    (Setup.truthy (Setup.LORIS_USERNAME c) = false →
       username = Setup.typed_username c) ∧
    (Setup.truthy (Setup.LORIS_PASSWORD c) = false →
       password = Setup.typed_password c).
Proof.
  destruct c as [base ds U P tu tp reply dl ok]; cbn.
  exists ((if Setup.truthy U then [] else [Setup.Input "Loris username: "])
          ++ (if Setup.truthy P then []
              else [Setup.Getpass "Loris password: "]))%list,
    (if Setup.truthy U then default "" U else tu),
    (if Setup.truthy P then default "" P else tp).
  destruct (Setup.truthy U) eqn:HU, (Setup.truthy P) eqn:HP.
  all: run_setup.
  all: rewrite <- ?app_assoc; cbn.
  all: eexists; split; [reflexivity|].
  all: repeat split; try (by repeat constructor); try done.
  all: try (intros; simplify_eq/=; done).
  all: intros [|? ?] -> ?; simplify_eq/=; done.
Qed.

(** X16.  Without a usable token (the request fails, or the answer has
    no token, a null one or an empty one) the script stops with the
    request's error or with its own [RuntimeError], and it has made no
    call on the dataset directory: no directory, no dataset, no git
    configuration. *)
Theorem no_token_no_dataset c tr :
  (∀ token, Setup.login_reply c = HttpJson (Some token) → token = "") →
  (Setup.setup c tr).1
  = Setup.Failed
      (match Setup.login_reply c with
       | HttpFail =>
           Setup.HTTPError (Setup.rstrip "/" (Setup.api_base c) +:+ "/login")
       | HttpJson _ =>
           Setup.RuntimeError " Login succeeded but no token returned"
       end) ∧
  ∃ evs, (Setup.setup c tr).2 = (tr ++ evs)%list ∧
         Forall (λ cl, Setup.on_disk cl = false) evs.
Proof.
  destruct c as [base ds U P tu tp reply dl ok]; cbn. intros Hno.
  destruct reply as [|[[|a t]|]]; [| | by specialize (Hno _ eq_refl) |].
  all: run_setup; rewrite <- ?app_assoc.
  all: split; [done|].
  all: eexists; split; [reflexivity|]; by repeat constructor.
Qed.

(** X17.  When the set-up returns, the login answered with a token that
    is not empty, and that one token is what the request header, the
    environment of the registrations and the git configuration carry;
    the two [git config] calls are the last two calls, in the script's
    order. *)
Theorem session_carries_login_token c tr ss :
  (Setup.setup c tr).1 = Setup.Done ss →
  ∃ token,
    Setup.login_reply c = HttpJson (Some token) ∧ token ≠ "" ∧
    Setup.TOKEN ss = token ∧
    Setup.HEADERS_Authorization ss = "Bearer " +:+ token ∧
    Setup.GIT_ANNEX_URL_AUTHORIZATION ss = "Bearer " +:+ token ∧
    Setup.API_BASE ss = Setup.rstrip "/" (Setup.api_base c) ∧
    Setup.MANIFEST_OUT ss = Setup.dataset c // "images_manifest.csv" ∧
    ∃ evs,
      (Setup.setup c tr).2
      = (tr ++ evs
            ++ [Setup.GitConfig "annex.security.allowed-http-addresses" "all";
                Setup.GitConfig "annex.http-headers"
                  ("Authorization: Bearer " +:+ token)])%list.
Proof.
  destruct c as [base ds U P tu tp reply dl ok]; cbn.
  destruct reply as [|[[|a t]|]].
  all: run_setup; intros; simplify_eq/=.
  all: exists (String a t); repeat split; try done.
  all: rewrite <- ?app_assoc; cbn.
  all: some_prefix.
Qed.

(** X18.  [datalad create] is run only on a directory without
    [.datalad], on the dataset directory, after the directory was made;
    and a set-up that returns on such a directory has run it. *)
Theorem dataset_created_only_when_missing c tr :
  ∃ evs, (Setup.setup c tr).2 = (tr ++ evs)%list ∧
    (∀ path before after,
       evs = (before ++ Setup.DataladCreate path :: after)%list →
       Setup.datalad_exists c = false ∧
       path = str (Setup.dataset c) ∧
       Setup.MkdirDataset path ∈ before ∧
       (∀ p, Setup.DataladCreate p ∉ before) ∧
       (∀ p, Setup.DataladCreate p ∉ after)) ∧
    (∀ ss, (Setup.setup c tr).1 = Setup.Done ss →
           Setup.datalad_exists c = false →
           Setup.DataladCreate (str (Setup.dataset c)) ∈ evs).
Proof.
  destruct c as [base ds U P tu tp reply dl ok]; cbn.
  run_setup; rewrite <- ?app_assoc; cbn.
  all: eexists; split; [reflexivity|]; split.
  all: try (intros path before after Heq;
            repeat (destruct before as [|? before]; simplify_eq/=)).
  all: try (intros; simplify_eq/=; done).
  all: repeat match goal with
              | H : negb ?b = _ |- _ => destruct b; simplify_eq/=
              end.
  all: repeat split; try done.
  all: try (intros ? ? ?; simplify_eq/=).
  all: try (rewrite !elem_of_cons; by auto 10).
  all: intros p Hin; rewrite ?elem_of_cons, elem_of_nil in Hin.
  all: decompose [or] Hin; done.
Qed.


End Login.

Lemma login_request_comes_first_witness :
  ∃ rest,
    (Setup.setup Setup.example_no_token []).2
    = ([Setup.Input "Loris username: "; Setup.Getpass "Loris password: "]
         ++ [Setup.Post "https://loris.example/api/v0.0.3/login"
               "admin" "secret"]
         ++ rest)%list.
Proof.
  destruct (login_request_comes_first Setup.example_no_token [])
    as (prompts & username & password & rest & Htr & _ & Hp & _ & _ & Hu & Hw).
  exists rest. rewrite Htr, Hp, (Hu eq_refl), (Hw eq_refl). reflexivity.
Defined.

Lemma no_token_no_dataset_witness :
  (Setup.setup Setup.example_no_token []).1
  = Setup.Failed (Setup.RuntimeError " Login succeeded but no token returned").
Proof.
  apply (no_token_no_dataset Setup.example_no_token []).
  intros token Heq. discriminate Heq.
Defined.

Lemma session_carries_login_token_witness :
  ∃ ss, (Setup.setup Setup.example []).1 = Setup.Done ss ∧
        Setup.HEADERS_Authorization ss = "Bearer tok123".
Proof.
  eexists. split; [reflexivity|].
  destruct (session_carries_login_token Setup.example [] _ eq_refl)
    as (token & Hreply & _ & _ & -> & _).
  injection Hreply as <-. reflexivity.
Defined.

Lemma dataset_created_only_when_missing_witness :
  ∃ evs, (Setup.setup Setup.example []).2 = evs ∧
         Setup.DataladCreate "/srv/dataset" ∈ evs.
Proof.
  destruct (dataset_created_only_when_missing Setup.example [])
    as (evs & Htr & _ & Hin).
  exists evs. split; [exact Htr|].
  exact (Hin _ eq_refl eq_refl).
Defined.

